(** * Stellingwerf phase-dispersion minimization (astrobase/periodbase/spdm.py)

    A shallow embedding of [stellingwerf_pdm_theta], [stellingwerf_pdm_worker]
    and [stellingwerf_pdm], and the properties of the period search that the
    specification states about them.

    Numbers.  numpy's float64 values are modelled by [float]: an exact
    rational, one of the two infinities, or not-a-number.  Arithmetic on the
    finite values is exact (no rounding, no overflow, no signed zero); the
    special values follow IEEE 754 as numpy applies it: a division by zero
    gives an infinity or nan and raises nothing, every comparison with nan is
    false.  Python exceptions are modelled by the [result] type. *)

From Stdlib Require Import String ZArith QArith Qround Qabs Qreduction List Bool Sorted Lia Lqa.
Import ListNotations.
Open Scope Z_scope.

(** ** Exceptions *)

Inductive exn := IndexError | ValueError | ZeroDivisionError.

Inductive result (A : Type) :=
| Ok (a : A)
| Raise (e : exn).
Arguments Ok {A} a.
Arguments Raise {A} e.

Definition bind {A B} (m : result A) (f : A -> result B) : result B :=
  match m with
  | Ok a => f a
  | Raise e => Raise e
  end.

Notation "x <- m ;; k" := (bind m (fun x => k))
  (at level 61, m at next level, right associativity).

(** ** numpy float64 *)

Inductive float :=
| Fin (q : Q)
| PInf
| NInf
| NaN.

Definition npnan : float := NaN.

Definition npisfinite (x : float) : bool :=
  match x with Fin _ => true | _ => false end.

Definition fin (q : Q) : float := Fin (Qred q).
Definition of_Z (z : Z) : float := Fin (inject_Z z).

Definition Qzero (q : Q) : bool := Qeq_bool q 0.
Definition Qpos (q : Q) : bool := negb (Qle_bool q 0).
Definition Qltb (a b : Q) : bool := negb (Qle_bool b a).

Definition fadd (x y : float) : float :=
  match x, y with
  | NaN, _ | _, NaN => NaN
  | Fin a, Fin b => fin (a + b)
  | PInf, NInf | NInf, PInf => NaN
  | PInf, _ | _, PInf => PInf
  | NInf, _ | _, NInf => NInf
  end.

Definition fsub (x y : float) : float :=
  match x, y with
  | NaN, _ | _, NaN => NaN
  | Fin a, Fin b => fin (a - b)
  | PInf, PInf | NInf, NInf => NaN
  | PInf, _ | _, NInf => PInf
  | NInf, _ | _, PInf => NInf
  end.

(** The infinity whose sign is that of [q]; nan when [q] is zero. *)
Definition inf_signed (q : Q) : float :=
  if Qzero q then NaN else if Qpos q then PInf else NInf.

Definition fmul (x y : float) : float :=
  match x, y with
  | NaN, _ | _, NaN => NaN
  | Fin a, Fin b => fin (a * b)
  | Fin a, PInf | PInf, Fin a => inf_signed a
  | Fin a, NInf | NInf, Fin a => inf_signed (- a)
  | PInf, PInf | NInf, NInf => PInf
  | PInf, NInf | NInf, PInf => NInf
  end.

(** numpy division: x/0 is an infinity (nan for 0/0) with a warning, never an
    exception. *)
Definition fdiv (x y : float) : float :=
  match x, y with
  | NaN, _ | _, NaN => NaN
  | Fin a, Fin b => if Qzero b then inf_signed a else fin (a / b)
  | Fin _, _ => Fin 0
  | PInf, Fin b => if Qle_bool 0 b then PInf else NInf
  | NInf, Fin b => if Qle_bool 0 b then NInf else PInf
  | _, _ => NaN
  end.

Definition fabs (x : float) : float :=
  match x with
  | Fin q => fin (Qabs q)
  | PInf | NInf => PInf
  | NaN => NaN
  end.

Definition npfloor (x : float) : float :=
  match x with
  | Fin q => of_Z (Qfloor q)
  | _ => x
  end.

(** [x < y]; false as soon as one side is nan. *)
Definition flt (x y : float) : bool :=
  match x, y with
  | NaN, _ | _, NaN => false
  | Fin a, Fin b => Qltb a b
  | _, NInf => false
  | NInf, _ => true
  | PInf, _ => false
  | _, PInf => true
  end.

Definition fgt (x y : float) : bool := flt y x.

(** [x <= y]; false as soon as one side is nan. *)
Definition fle (x y : float) : bool :=
  match x, y with
  | NaN, _ | _, NaN => false
  | Fin a, Fin b => Qle_bool a b
  | NInf, _ => true
  | _, PInf => true
  | _, _ => false
  end.

(** The order numpy sorts by: [fle] with nan after everything else. *)
Definition sort_le (x y : float) : bool :=
  match x, y with
  | _, NaN => true
  | NaN, _ => false
  | _, _ => fle x y
  end.

Definition feqb (x y : float) : bool :=
  match x, y with
  | Fin a, Fin b => Qeq_bool a b
  | PInf, PInf | NInf, NInf => true
  | _, _ => false
  end.

(** Python truthiness of a float: everything but zero (nan included). *)
Definition float_truthy (x : float) : bool :=
  match x with Fin q => negb (Qzero q) | _ => true end.

(** Truthiness of an optional argument: [None] and zero are false. *)
Definition truthy (x : option float) : bool :=
  match x with None => false | Some v => float_truthy v end.

(** ** numpy array primitives used by the search *)

Definition len {A} (l : list A) : Z := Z.of_nat (length l).

(** [a[0]]: IndexError on an empty array. *)
Definition index0 {A} (a : list A) : result A :=
  match a with
  | [] => Raise IndexError
  | x :: _ => Ok x
  end.

(** [a[mask]] for a boolean mask of the same length. *)
Fixpoint mask_select {A} (mask : list bool) (a : list A) : list A :=
  match mask, a with
  | b :: mask', x :: a' =>
      if b then x :: mask_select mask' a' else mask_select mask' a'
  | _, _ => []
  end.

Definition npsum (a : list float) : float := fold_left fadd a (Fin 0).

Definition sumZ (a : list Z) : Z := fold_left Z.add a 0.

Definition npmean (a : list float) : float := fdiv (npsum a) (of_Z (len a)).

(** [np.var(a, ddof=ddof)]: the squared deviations from the mean, summed and
    divided by [max(n - ddof, 0)]; nan (0/0) when that divisor is zero. *)
Definition npvar (a : list float) (ddof : Z) : float :=
  let arrmean := npmean a in
  let x := map (fun v => fsub v arrmean) a in
  let x := map (fun d => fmul d d) x in
  fdiv (npsum x) (of_Z (Z.max (len a - ddof) 0)).

(** Insertion sort by a key; the order is [sort_le] (nan last).  The sort is
    stable: [sort_by] inserts from the right, and an element goes in front of
    the elements already placed whose key is not smaller, so equal keys stay
    in their order of appearance (numpy sorts arrays of this size by
    insertion, too). *)
Fixpoint insert_by {A} (key : A -> float) (x : A) (l : list A) : list A :=
  match l with
  | [] => [x]
  | y :: l' =>
      if sort_le (key x) (key y) then x :: l else y :: insert_by key x l'
  end.

Definition sort_by {A} (key : A -> float) (l : list A) : list A :=
  fold_right (fun x acc => insert_by key x acc) [] l.

Definition npsort (a : list float) : list float := sort_by (fun x => x) a.

(** [np.median]: nan if the array is empty or holds a nan, else the middle
    element of the sorted array, or the mean of the two middle ones. *)
Definition npmedian (a : list float) : float :=
  let s := npsort a in
  let n := length a in
  if existsb (fun x => match x with NaN => true | _ => false end) a then NaN
  else if Nat.eqb n 0 then NaN
  else if Nat.even n
       then fdiv (fadd (nth (n / 2 - 1) s NaN) (nth (n / 2) s NaN)) (Fin 2)
       else nth (n / 2) s NaN.

Definition fmax2 (x y : float) : float :=
  match x, y with
  | NaN, _ | _, NaN => NaN
  | _, _ => if flt x y then y else x
  end.

Definition fmin2 (x y : float) : float :=
  match x, y with
  | NaN, _ | _, NaN => NaN
  | _, _ => if flt y x then y else x
  end.

(** [a.max()] and [a.min()]: ValueError on an empty array, nan if one element
    is nan. *)
Definition npmax (a : list float) : result float :=
  match a with
  | [] => Raise ValueError
  | x :: a' => Ok (fold_left fmax2 a' x)
  end.

Definition npmin (a : list float) : result float :=
  match a with
  | [] => Raise ValueError
  | x :: a' => Ok (fold_left fmin2 a' x)
  end.

(** [np.arange(start, stop, step)]: [ceil((stop - start)/step)] values
    [start + i*step].  A zero step raises (ZeroDivisionError); a length that is
    not a finite number raises too; a length below one gives the empty
    array.  When the quotient is zero although [stop - start] is not (an
    infinite step), numpy returns the one value [start] if the two have the
    same sign and the empty array if not.  The values are exact rationals
    here, where numpy rounds each [i*step] to a float64, and no array is too
    large to allocate. *)
Definition arange (start stop step : float) : result (list float) :=
  if feqb step (Fin 0) then Raise ZeroDivisionError
  else
    let delta := fsub stop start in
    match fdiv delta step with
    | Fin n =>
        if Qzero n && negb (feqb delta (Fin 0))
        then Ok (if Bool.eqb (flt (Fin 0) delta) (flt (Fin 0) step)
                 then [start] else [])
        else Ok (map (fun i => fadd start (fmul (of_Z (Z.of_nat i)) step))
                     (seq 0 (Z.to_nat (Qceiling n))))
    | _ => Raise ValueError
    end.

(** [np.digitize(x, bins)] for increasing [bins] (every call site passes the
    result of [arange] with a zero start): the number of bin edges that are
    [<= x], so [i] with [bins[i-1] <= x < bins[i]]; a nan sorts after every
    edge. *)
Definition digitize1 (bins : list float) (x : float) : Z :=
  len (filter (fun b => sort_le b x) bins).

Definition npdigitize (x bins : list float) : list Z :=
  map (digitize1 bins) x.

(** [np.unique]: the distinct values in increasing order. *)
Fixpoint insert_uniq (x : Z) (l : list Z) : list Z :=
  match l with
  | [] => [x]
  | y :: l' =>
      if x <? y then x :: l
      else if x =? y then l
      else y :: insert_uniq x l'
  end.

Definition npunique (a : list Z) : list Z :=
  fold_right insert_uniq [] a.

(** ** Phase folding *)

Record phased_series := { phase : list float; pmags_of : list float }.

(** Modelled from the spec: [lcmath.phase_magseries] is not part of the
    sources.  Section 4.3: phase = fractional part of
    (time - origin_time) / trial_period, and the caller asks for the result
    sorted by phase ([sort=True], [wrap=False]).  The two arrays have the same
    length (LightCurve invariant). *)
Definition phase_magseries (times mags : list float) (period epoch : float)
  : phased_series :=
  let ph := map (fun t => let c := fdiv (fsub t epoch) period in
                          fsub c (npfloor c)) times in
  let sorted := sort_by fst (combine ph mags) in
  {| phase := map fst sorted; pmags_of := map snd sorted |}.

(** ** The theta statistic (spdm.py, lines 101-150) *)

(** One pass of the loop over the occupied bins (lines 129-139): the state is
    [(binvariances, binndets, goodbins)]. *)
Definition bin_step (binnedphaseinds : list Z) (pmags : list float) (minbin : Z)
  (st : list float * list Z * Z) (x : Z) : list float * list Z * Z :=
  let '(binvariances, binndets, goodbins) := st in
  let thisbin_inds := map (fun i => i =? x) binnedphaseinds in
  let thisbin_mags := mask_select thisbin_inds pmags in
  if len thisbin_mags >? minbin
  then (binvariances ++ [npvar thisbin_mags 1],
        binndets ++ [len thisbin_mags],
        goodbins + 1)
  else st.

(** In every call the search makes [frequency] is an element of the numpy
    grid, so [1.0/frequency] is numpy's division (an infinite period for a
    zero frequency).  A direct call with a Python float that is zero raises
    ZeroDivisionError at that line instead; the two agree for every other
    frequency. *)
Definition stellingwerf_pdm_theta (times mags errs : list float)
  (frequency binsize : float) (minbin : Z) : result float :=
  let period := fdiv (Fin 1) frequency in
  fold_time <- index0 times ;;
  let phased := phase_magseries times mags period fold_time in
  let phases := phase phased in
  let pmags := pmags_of phased in
  bins <- arange (Fin 0) (Fin 1) binsize ;;
  let binnedphaseinds := npdigitize phases bins in
  let '(binvariances, binndets, goodbins) :=
    fold_left (bin_step binnedphaseinds pmags minbin)
              (npunique binnedphaseinds) ([], [], 0) in
  let theta_top :=
    fdiv (npsum (map (fun vn => fmul (fst vn) (of_Z (snd vn - 1)))
                     (combine binvariances binndets)))
         (of_Z (sumZ binndets - goodbins)) in
  let theta_bot := npvar pmags 1 in
  let theta := fdiv theta_top theta_bot in
  Ok theta.

(** ** The per-frequency worker (lines 154-178) *)

Definition task : Type :=
  list float * list float * list float * float * float * Z.

Definition stellingwerf_pdm_worker (t : task) : float :=
  let '(times, mags, errs, frequency, binsize, minbin) := t in
  match stellingwerf_pdm_theta times mags errs frequency binsize minbin with
  | Ok theta => theta
  | Raise _ => npnan
  end.

(** ** The search result *)

Record SearchResult := mkSearchResult {
  bestperiod : float;
  bestlspval : float;
  nbestpeaks : Z;
  nbestlspvals : option (list float);
  nbestperiods : option (list float);
  lspvals : option (list float);
  periods : option (list float);
  method : string
}.

(** The record of lines 355-362 and 366-373: nan sentinels, [None] arrays. *)
Definition null_result (nbestpeaks : Z) : SearchResult :=
  {| bestperiod := npnan;
     bestlspval := npnan;
     nbestpeaks := nbestpeaks;
     nbestlspvals := None;
     nbestperiods := None;
     lspvals := None;
     periods := None;
     method := "pdm" |}.

(** ** Peak selection primitives *)

(** The comparison [np.argmin] reduces with: a nan counts as the minimum. *)
Definition lt_nanfirst (x y : float) : bool :=
  match x, y with
  | NaN, NaN => false
  | NaN, _ => true
  | _, NaN => false
  | _, _ => flt x y
  end.

Fixpoint argmin_from (l : list float) (i best : nat) (bestv : float) : nat :=
  match l with
  | [] => best
  | x :: l' =>
      if lt_nanfirst x bestv then argmin_from l' (S i) i x
      else argmin_from l' (S i) best bestv
  end.

(** [np.argmin]: the first index of the minimum; ValueError on an empty
    array. *)
Definition npargmin (a : list float) : result nat :=
  match a with
  | [] => Raise ValueError
  | x :: a' => Ok (argmin_from a' 1 0 x)
  end.

(** [np.argsort]: the indices that sort the array (nan last).  numpy's default
    sort does not promise an order among equal values; this one keeps them in
    index order. *)
Definition npargsort (a : list float) : list nat :=
  map fst (sort_by snd (combine (seq 0 (length a)) a)).

(** [a[ind]] for an array of indices. *)
Definition take_inds (a : list float) (ind : list nat) : list float :=
  map (fun i => nth i a NaN) ind.

Definition peak_state : Type := list float * list float * Z * float.

(** The loop of lines 319-340 over [zip(sortedlspperiods, sortedlspvals)]; the
    state is [(nbestperiods, nbestlspvals, peakcount, prevperiod)]. *)
Fixpoint peak_loop (nbestpeaks : Z) (periodepsilon : float)
  (l : list (float * float)) (st : peak_state) : peak_state :=
  match l with
  | [] => st
  | (period, lspval) :: l' =>
      let '(nbestperiods, nbestlspvals, peakcount, prevperiod) := st in
      if peakcount =? nbestpeaks then st
      else
        let perioddiff := fabs (fsub period prevperiod) in
        let bestperiodsdiff :=
          map (fun x => fabs (fsub period x)) nbestperiods in
        if fgt perioddiff periodepsilon
           && forallb (fun x => fgt x periodepsilon) bestperiodsdiff
        then peak_loop nbestpeaks periodepsilon l'
               (nbestperiods ++ [period], nbestlspvals ++ [lspval],
                peakcount + 1, period)
        else peak_loop nbestpeaks periodepsilon l'
               (nbestperiods, nbestlspvals, peakcount, period)
  end.

(** Python's [1.0/x] on Python floats: ZeroDivisionError when [x] is zero. *)
Definition pydiv (x y : float) : result float :=
  if feqb y (Fin 0) then Raise ZeroDivisionError else Ok (fdiv x y).

(** ** The search (spdm.py, lines 182-373) *)

Section Search.

(** [periodbase.get_frequency_grid] is not part of the sources: its contract
    (section 4.2) is [(times, minfreq, maxfreq) -> frequencies]. *)
Variable get_frequency_grid : list float -> float -> float -> list float.

(** The square root behind [np.std]; not a rational function. *)
Variable npsqrt : float -> float.

(** [NCPUS = cpu_count()], at least one. *)
Variable NCPUS : positive.

Definition npstd (a : list float) : float := npsqrt (npvar a 0).

(** Lines 201-204: keep the samples whose time, magnitude and error are all
    finite.  Arrays of different lengths make numpy raise (the masks cannot be
    combined, or the mask does not fit the array it indexes). *)
Definition finite_filter (times mags errs : list float)
  : result (list float * list float * list float) :=
  if (length times =? length mags)%nat && (length mags =? length errs)%nat
  then
    let find :=
      map (fun tme => npisfinite (fst (fst tme)) && npisfinite (snd (fst tme))
                      && npisfinite (snd tme))
          (combine (combine times mags) errs) in
    Ok (mask_select find times, mask_select find mags, mask_select find errs)
  else Raise ValueError.

(** Line 209. *)
Definition median_mag_of (fmags : list float) : float := npmedian fmags.

(** Line 210. *)
Definition stddev_mag_of (fmags : list float) : float :=
  fmul (npmedian (map (fun m => fabs (fsub m (median_mag_of fmags))) fmags))
       (Fin (1483 # 1000)).

(** Line 215: the mask of the points that survive the clip. *)
Definition sigind_of (sigclip : float) (fmags : list float) : list bool :=
  map (fun m => flt (fabs (fsub m (median_mag_of fmags)))
                    (fmul sigclip (stddev_mag_of fmags))) fmags.

(** Lines 213-229. *)
Definition sigclip_stage (sigclip : option float)
  (ftimes fmags ferrs : list float) : list float * list float * list float :=
  match sigclip with
  | Some s =>
      if float_truthy s
      then let sigind := sigind_of s fmags in
           (mask_select sigind ftimes, mask_select sigind fmags,
            mask_select sigind ferrs)
      else (ftimes, fmags, ferrs)
  | None => (ftimes, fmags, ferrs)
  end.

(** Lines 235-239. *)
Definition endf_of (startp : option float) : float :=
  match startp with
  | Some p => if float_truthy p then fdiv (Fin 1) p else fdiv (Fin 1) (Fin (1 # 10))
  | None => fdiv (Fin 1) (Fin (1 # 10))
  end.

(** Lines 241-245. *)
Definition startf_of (endp : option float) (stimes : list float)
  : result float :=
  let default :=
    mx <- npmax stimes ;;
    mn <- npmin stimes ;;
    Ok (fdiv (Fin 1) (fsub mx mn)) in
  match endp with
  | Some p => if float_truthy p then Ok (fdiv (Fin 1) p) else default
  | None => default
  end.

(** Lines 248-265.  The arguments of the two log messages are evaluated:
    [1.0/endf] and [1.0/startf] (Python floats, so a zero raises, except for
    the default [startf], a numpy scalar), [frequencies.max()] and
    [frequencies.min()] on the automatic grid. *)
Definition frequencies_of (autofreq : bool) (startp endp : option float)
  (stepsize : float) (stimes : list float) : result (list float) :=
  let endf := endf_of startp in
  startf <- startf_of endp stimes ;;
  if negb autofreq
  then frequencies <- arange startf endf stepsize ;;
       _ <- pydiv (Fin 1) endf ;;
       _ <- (if truthy endp then pydiv (Fin 1) startf else Ok (fdiv (Fin 1) startf)) ;;
       Ok frequencies
  else let frequencies := get_frequency_grid stimes startf endf in
       _ <- npmax frequencies ;;
       _ <- npmin frequencies ;;
       Ok frequencies.

(** Lines 268-272: the size of the pool; [Pool] refuses a size below one. *)
Definition pool_size (nworkers : option Z) : result Z :=
  let n := match nworkers with
           | None => Z.pos NCPUS
           | Some n => if (n =? 0) || (n >? Z.pos NCPUS) then Z.pos NCPUS else n
           end in
  if n <? 1 then Raise ValueError else Ok n.

(** Lines 276-279. *)
Definition nmags_of (normalize : bool) (smags : list float) : list float :=
  if normalize
  then map (fun m => fdiv (fsub m (npmedian smags)) (npstd smags)) smags
  else smags.

(** Lines 281-282. *)
Definition tasks_of (stimes nmags serrs frequencies : list float)
  (phasebinsize : float) (mindetperbin : Z) : list task :=
  map (fun x => (stimes, nmags, serrs, x, phasebinsize, mindetperbin))
      frequencies.

(** Lines 297-350: peak selection on the spectrum. *)
Definition select_peaks (lsp periods : list float) (nbestpeaks : Z)
  (periodepsilon : float) : result SearchResult :=
  let finitepeakind := map npisfinite lsp in
  let finlsp := mask_select finitepeakind lsp in
  let finperiods := mask_select finitepeakind periods in
  bestperiodind <- npargmin finlsp ;;
  let sortedlspind := npargsort finlsp in
  let sortedlspperiods := take_inds finperiods sortedlspind in
  let sortedlspvals := take_inds finlsp sortedlspind in
  prevbestlspval <- index0 sortedlspvals ;;
  let bestp := nth bestperiodind finperiods NaN in
  let bestv := nth bestperiodind finlsp NaN in
  prevperiod <- index0 sortedlspperiods ;;
  let '(nbestperiods, nbestlspvals, peakcount, _) :=
    peak_loop nbestpeaks periodepsilon
              (combine sortedlspperiods sortedlspvals)
              ([bestp], [bestv], 1, prevperiod) in
  Ok {| bestperiod := bestp;
        bestlspval := bestv;
        nbestpeaks := nbestpeaks;
        nbestlspvals := Some nbestlspvals;
        nbestperiods := Some nbestperiods;
        lspvals := Some lsp;
        periods := Some periods;
        method := "pdm" |}.

Definition stellingwerf_pdm (times mags errs : list float)
  (autofreq : bool) (startp endp : option float) (normalize : bool)
  (stepsize phasebinsize : float) (mindetperbin nbestpeaks : Z)
  (periodepsilon : float) (sigclip : option float) (nworkers : option Z)
  : result SearchResult :=
  fin3 <- finite_filter times mags errs ;;
  let '(ftimes, fmags, ferrs) := fin3 in
  if (len ftimes >? 9) && (len fmags >? 9) && (len ferrs >? 9)
  then
    let '(stimes, smags, serrs) := sigclip_stage sigclip ftimes fmags ferrs in
    if (len stimes >? 9) && (len smags >? 9) && (len serrs >? 9)
    then
      frequencies <- frequencies_of autofreq startp endp stepsize stimes ;;
      _ <- pool_size nworkers ;;
      let nmags := nmags_of normalize smags in
      let tasks :=
        tasks_of stimes nmags serrs frequencies phasebinsize mindetperbin in
      let lsp := map stellingwerf_pdm_worker tasks in
      let periods := map (fun f => fdiv (Fin 1) f) frequencies in
      select_peaks lsp periods nbestpeaks periodepsilon
    else Ok (null_result nbestpeaks)
  else Ok (null_result nbestpeaks).

End Search.

(** ** Sample inputs

    Twelve samples at unit spacing whose magnitudes repeat with period 4; the
    grid is explicit ([autofreq=False], [normalize=False]), so the automatic
    grid and the square root are never called. *)

Definition grid_unused (_ : list float) (_ _ : float) : list float := [].
Definition sqrt_unused (x : float) : float := x.

Definition sample_times : list float :=
  map (fun i => of_Z (Z.of_nat i)) (seq 0 12).
Definition sample_mags : list float :=
  map (fun i => of_Z (Z.of_nat (i mod 4))) (seq 0 12).
Definition sample_errs : list float :=
  map (fun _ => Fin (1 # 100)) (seq 0 12).

(** [stellingwerf_pdm(times, mags, errs, autofreq=False, startp=1.6, endp=...,
    stepsize=0.25, phasebinsize=0.25, mindetperbin=..., nbestpeaks=5,
    periodepsilon=..., sigclip=None)] on the sample. *)
Definition sample_search (endp : option float) (mindetperbin : Z)
  (periodepsilon : float) : result SearchResult :=
  stellingwerf_pdm grid_unused sqrt_unused 4%positive
    sample_times sample_mags sample_errs
    false (Some (Fin (8 # 5))) endp false
    (Fin (1 # 4)) (Fin (1 # 4)) mindetperbin 5 periodepsilon None None.

(** ** The preprocessing as the specification words it (section 4.1)

    The light curve as a list of (time, magnitude, error) samples: step 1
    keeps the samples whose three components are finite, step 3 computes the
    median and the median absolute deviation, step 4 keeps the samples within
    [sigclip] times the scale of the median. *)

Definition sample : Type := float * float * float.

Definition zip3 (times mags errs : list float) : list sample :=
  combine (combine times mags) errs.

Definition times_of (l : list sample) : list float := map (fun x => fst (fst x)) l.
Definition mags_of (l : list sample) : list float := map (fun x => snd (fst x)) l.
Definition errs_of (l : list sample) : list float := map snd l.

Definition finite_sample (x : sample) : bool :=
  npisfinite (fst (fst x)) && npisfinite (snd (fst x)) && npisfinite (snd x).

Definition finite_samples (times mags errs : list float) : list sample :=
  filter finite_sample (zip3 times mags errs).

(** Median absolute deviation from the median. *)
Definition mad (fmags : list float) : float :=
  npmedian (map (fun m => fabs (fsub m (npmedian fmags))) fmags).

(** [|mag - median| < sigclip * scale]. *)
Definition within_clip (sigclip scale : float) (fmags : list float)
  (x : sample) : bool :=
  flt (fabs (fsub (snd (fst x)) (npmedian fmags))) (fmul sigclip scale).

Definition clipped_samples (sigclip : option float) (scale : float)
  (l : list sample) : list sample :=
  match sigclip with
  | Some s => if float_truthy s then filter (within_clip s scale (mags_of l)) l
              else l
  | None => l
  end.

(** Ten finite samples whose magnitudes have a zero median absolute
    deviation: the clip threshold is zero and no sample is within it. *)
Definition flat_times : list float :=
  map (fun i => of_Z (Z.of_nat i)) (seq 0 10).
Definition flat_mags : list float :=
  map (fun i => of_Z (if (i =? 9)%nat then 5 else 0)) (seq 0 10).
Definition flat_errs : list float :=
  map (fun _ => Fin (1 # 100)) (seq 0 10).

(** Eleven samples with median 0 and median absolute deviation 1; the last
    magnitude lies between 10 x 1.4826 and 10 x 1.483. *)
Definition clip_times : list float :=
  map (fun i => of_Z (Z.of_nat i)) (seq 0 11).
Definition clip_mags : list float :=
  [Fin (-2); Fin (-1); Fin (-1); Fin (-1); Fin 0; Fin 0; Fin 0;
   Fin 1; Fin 1; Fin 1; Fin (14828 # 1000)].
Definition clip_errs : list float :=
  map (fun _ => Fin (1 # 100)) (seq 0 11).

(** The scale as the specification states it: 1.4826 x the median absolute
    deviation. *)
Definition scale_14826 (fmags : list float) : float :=
  fmul (Fin (14826 # 10000)) (mad fmags).

(** Every two entries of a list of periods differ by more than
    [periodepsilon]. *)
Definition separated (periodepsilon : float) (l : list float) : Prop :=
  forall i j p q,
    i <> j -> nth_error l i = Some p -> nth_error l j = Some q ->
    fgt (fabs (fsub p q)) periodepsilon = true.

(** ** The theta statistic as the specification words it (section 4.4)

    The folded series is a list of (phase, magnitude) pairs.  The bin
    boundaries are the values 0, [binsize], 2 [binsize], ... below 1, as the
    code computes them.  Increasing boundaries [e_0 .. e_(n-1)] cut the
    half-open bins [x < e_0], [e_0 <= x < e_1], ..., [e_(n-1) <= x]: bin 0 lies
    below the first boundary, bin [k] between two neighbours, one bin width
    apart, and bin [n] above the last boundary.  The comparisons are those of
    the order numpy sorts by, which is [<=] on numbers and puts nan last. *)


Definition in_bin (edges : list float) (k : nat) (x : float) : bool :=
  match k with
  | O => true
  | S j => match nth_error edges j with
           | Some lo => sort_le lo x
           | None => false
           end
  end
  && match nth_error edges k with
     | Some hi => negb (sort_le hi x)
     | None => true
     end.

Definition bin_mags (edges : list float) (pairs : list (float * float))
  (k : nat) : list float :=
  map snd (filter (fun pm => in_bin edges k (fst pm)) pairs).

(** The bins that count: not empty, and strictly more than [minbin]
    members. *)
Definition kept_bins (edges : list float) (minbin : Z)
  (pairs : list (float * float)) : list (list float) :=
  filter (fun g => negb (len g =? 0) && (len g >? minbin))
         (map (bin_mags edges pairs) (seq 0 (S (length edges)))).

(** Unbiased sample variance: the squared deviations from the mean, summed
    and divided by [n - 1]. *)
Definition sample_variance (a : list float) : float :=
  fdiv (npsum (map (fun v => fmul (fsub v (npmean a)) (fsub v (npmean a))) a))
       (of_Z (len a - 1)).

(** [theta = (sum variance_i (n_i - 1)) / (sum n_i - goodbins) /
    variance(all folded mags)]. *)
Definition theta_spec (phased : phased_series) (edges : list float)
  (minbin : Z) : float :=
  let kept := kept_bins edges minbin
                        (combine (phase phased) (pmags_of phased)) in
  let goodbins := len kept in
  fdiv (fdiv (npsum (map (fun g => fmul (sample_variance g) (of_Z (len g - 1)))
                         kept))
             (of_Z (sumZ (map len kept) - goodbins)))
       (sample_variance (pmags_of phased)).

(** The four boundaries of the bin size 1/4. *)
Definition quarter_edges : list float :=
  [Fin 0; Fin (1 # 4); Fin (1 # 2); Fin (3 # 4)].

(** Twelve samples of which three have a non-finite component. *)
Definition gappy_times : list float :=
  map (fun i => if (i =? 3)%nat then NaN else of_Z (Z.of_nat i)) (seq 0 12).
Definition gappy_mags : list float :=
  map (fun i => if (i =? 5)%nat then PInf else of_Z (Z.of_nat (i mod 4)))
      (seq 0 12).
Definition gappy_errs : list float :=
  map (fun i => if (i =? 7)%nat then NaN else Fin (1 # 100)) (seq 0 12).

(** A value that is not below zero: a rational [>= 0], plus infinity, or nan. *)
Definition not_negative (x : float) : Prop :=
  match x with
  | Fin q => (0 <= q)%Q
  | NInf => False
  | PInf | NaN => True
  end.

(** The record the sample search returns with [endp=4], [mindetperbin=2]
    and [periodepsilon=0.1]. *)
Definition sample_result : SearchResult :=
  {| bestperiod := Fin 4; bestlspval := Fin 0; nbestpeaks := 5;
     nbestlspvals := Some [Fin 0; Fin (22 # 25)];
     nbestperiods := Some [Fin 4; Fin 2];
     lspvals := Some [Fin 0; Fin (22 # 25)];
     periods := Some [Fin 4; Fin 2];
     method := "pdm" |}.

(** The same search with [nbestpeaks=1]. *)
Definition sample_result_single : SearchResult :=
  {| bestperiod := Fin 4; bestlspval := Fin 0; nbestpeaks := 1;
     nbestlspvals := Some [Fin 0];
     nbestperiods := Some [Fin 4];
     lspvals := Some [Fin 0; Fin (22 # 25)];
     periods := Some [Fin 4; Fin 2];
     method := "pdm" |}.

(** Other errors for the sample, finite at the same positions. *)
Definition sample_errs_other : list float :=
  map (fun i => of_Z (Z.of_nat (S i))) (seq 0 12).

(** * Properties *)

(** ** The worker and the measurement errors *)

(** C10: the theta statistic does not depend on the measurement errors; the
    [errs] argument is accepted and never read, so any two error arrays (of
    the matching length or not) give the same value. *)
Theorem theta_ignores_errs :
  forall times mags errs1 errs2 frequency binsize minbin,
    stellingwerf_pdm_theta times mags errs1 frequency binsize minbin =
    stellingwerf_pdm_theta times mags errs2 frequency binsize minbin.
Proof. reflexivity. Qed.

Lemma worker_unfold :
  forall times mags errs frequency binsize minbin,
    stellingwerf_pdm_worker (times, mags, errs, frequency, binsize, minbin) =
    match stellingwerf_pdm_theta times mags errs frequency binsize minbin with
    | Ok theta => theta
    | Raise _ => npnan
    end.
Proof. reflexivity. Qed.

(** A zero bin size makes [np.arange] raise inside the theta evaluation. *)
Lemma theta_zero_binsize_raises :
  forall times mags errs frequency minbin,
    times <> [] ->
    stellingwerf_pdm_theta times mags errs frequency (Fin 0) minbin =
    Raise ZeroDivisionError.
Proof.
  intros [|t times] mags errs frequency minbin H; [congruence|].
  reflexivity.
Qed.

(** C6: in the list [pool.map] returns, the entry of each task is the theta
    of that task alone when the evaluation returns, and nan when it raises;
    the worker is a total function, so nothing reaches the caller, and the
    other tasks of the list play no part in the entry. *)
Theorem worker_recovers_per_task :
  forall (tasks : list task) (i : nat) times mags errs frequency binsize minbin,
    nth_error tasks i = Some (times, mags, errs, frequency, binsize, minbin) ->
    nth_error (map stellingwerf_pdm_worker tasks) i =
    Some (match stellingwerf_pdm_theta times mags errs frequency binsize minbin with
          | Ok theta => theta
          | Raise _ => npnan
          end).
Proof.
  intros tasks i times mags errs frequency binsize minbin H.
  rewrite nth_error_map, H. reflexivity.
Qed.

(** The first task raises (zero bin size) and yields nan; the second one is
    evaluated as if it were alone. *)
Lemma worker_recovers_per_task_witness :
  let bad := (sample_times, sample_mags, sample_errs, Fin (1 # 4), Fin 0, 2) in
  let good := (sample_times, sample_mags, sample_errs, Fin (1 # 4), Fin (1 # 4), 2) in
  nth_error (map stellingwerf_pdm_worker [bad; good]) 0 = Some npnan /\
  nth_error (map stellingwerf_pdm_worker [bad; good]) 1 = Some (Fin 0).
Proof.
  split.
  - exact (worker_recovers_per_task
             [(sample_times, sample_mags, sample_errs, Fin (1 # 4), Fin 0, 2);
              (sample_times, sample_mags, sample_errs, Fin (1 # 4), Fin (1 # 4), 2)]
             0 sample_times sample_mags sample_errs (Fin (1 # 4)) (Fin 0) 2
             eq_refl).
  - exact (worker_recovers_per_task
             [(sample_times, sample_mags, sample_errs, Fin (1 # 4), Fin 0, 2);
              (sample_times, sample_mags, sample_errs, Fin (1 # 4), Fin (1 # 4), 2)]
             1 sample_times sample_mags sample_errs (Fin (1 # 4)) (Fin (1 # 4)) 2
             eq_refl).
Defined.

(** ** The default frequency bounds *)

Lemma startf_default :
  forall stimes mx mn,
    npmax stimes = Ok mx -> npmin stimes = Ok mn ->
    startf_of None stimes = Ok (fdiv (Fin 1) (fsub mx mn)).
Proof.
  intros stimes mx mn Hmx Hmn. unfold startf_of. rewrite Hmx, Hmn. reflexivity.
Qed.

(** C2: on the twelve samples at times 0..11 and no [endp], the code takes
    [startf = 1/(max - min) = 1/11], so the longest trial period is the whole
    baseline, 11, where the specification (and the comment of line 244) says
    half of it:
    [startf = 2/11], longest period 5.5. *)
Theorem default_startf_is_full_baseline :
  npmax sample_times = Ok (Fin 11) /\
  npmin sample_times = Ok (Fin 0) /\
  startf_of None sample_times = Ok (Fin (1 # 11)) /\
  startf_of None sample_times <> Ok (fdiv (Fin 2) (fsub (Fin 11) (Fin 0))) /\
  exists r, sample_search None 2 (Fin (1 # 10)) = Ok r /\
            option_map (hd NaN) (periods r) = Some (Fin 11).
Proof.
  repeat split; try reflexivity.
  - vm_compute. discriminate.
  - eexists. split; vm_compute; reflexivity.
Qed.

(** ** A spectrum without a finite value *)

Lemma mask_select_none_finite :
  forall (lsp : list float),
    forallb (fun x => negb (npisfinite x)) lsp = true ->
    mask_select (map npisfinite lsp) lsp = [].
Proof.
  induction lsp as [|x lsp IH]; simpl; intros H; [reflexivity|].
  apply andb_prop in H. destruct H as [Hx Hl].
  destruct (npisfinite x); [discriminate|]. auto.
Qed.

Lemma select_peaks_no_finite_raises :
  forall lsp periods nbestpeaks periodepsilon,
    forallb (fun x => negb (npisfinite x)) lsp = true ->
    select_peaks lsp periods nbestpeaks periodepsilon = Raise ValueError.
Proof.
  intros lsp periods nb eps H. unfold select_peaks.
  rewrite (mask_select_none_finite lsp H). reflexivity.
Qed.

(** C1: the sample passes both 10-point guards; with [mindetperbin=100] no
    phase bin qualifies, the theta of both grid frequencies is nan, and
    [np.argmin] of the empty array of finite values raises ValueError: the
    search raises instead of returning a result with a nan [bestperiod]. *)
Theorem all_nan_spectrum_raises :
  frequencies_of grid_unused false (Some (Fin (8 # 5))) (Some (Fin 4))
                 (Fin (1 # 4)) sample_times = Ok [Fin (1 # 4); Fin (1 # 2)] /\
  map stellingwerf_pdm_worker
      (tasks_of sample_times sample_mags sample_errs
                [Fin (1 # 4); Fin (1 # 2)] (Fin (1 # 4)) 100) = [NaN; NaN] /\
  sample_search (Some (Fin 4)) 100 (Fin (1 # 10)) = Raise ValueError.
Proof. repeat split; vm_compute; reflexivity. Qed.

(** ** Masks and filters *)

Lemma mask_select_map :
  forall {A B} (f : A -> bool) (g : A -> B) (l : list A),
    mask_select (map f l) (map g l) = map g (filter f l).
Proof.
  intros A B f g l. induction l as [|x l IH]; simpl; [reflexivity|].
  destruct (f x); simpl; rewrite IH; reflexivity.
Qed.

Lemma times_of_zip3 :
  forall times mags errs,
    length times = length mags -> length mags = length errs ->
    times_of (zip3 times mags errs) = times.
Proof.
  induction times as [|t times IH]; intros [|m mags] [|e errs] H1 H2;
    simpl in *; try discriminate; try reflexivity.
  f_equal. apply IH; congruence.
Qed.

Lemma mags_of_zip3 :
  forall times mags errs,
    length times = length mags -> length mags = length errs ->
    mags_of (zip3 times mags errs) = mags.
Proof.
  induction times as [|t times IH]; intros [|m mags] [|e errs] H1 H2;
    simpl in *; try discriminate; try reflexivity.
  f_equal. apply IH; congruence.
Qed.

Lemma errs_of_zip3 :
  forall times mags errs,
    length times = length mags -> length mags = length errs ->
    errs_of (zip3 times mags errs) = errs.
Proof.
  induction times as [|t times IH]; intros [|m mags] [|e errs] H1 H2;
    simpl in *; try discriminate; try reflexivity.
  f_equal. apply IH; congruence.
Qed.

(** The three masked arrays of lines 202-204 are the components of the finite
    samples. *)
Lemma finite_filter_samples :
  forall times mags errs,
    length times = length mags -> length mags = length errs ->
    finite_filter times mags errs =
    Ok (times_of (finite_samples times mags errs),
        mags_of (finite_samples times mags errs),
        errs_of (finite_samples times mags errs)).
Proof.
  intros times mags errs H1 H2. unfold finite_filter.
  rewrite H1, H2, !Nat.eqb_refl. simpl.
  set (find := map _ _).
  assert (Hf : find = map finite_sample (zip3 times mags errs)) by reflexivity.
  rewrite Hf. unfold finite_samples, times_of, mags_of, errs_of.
  rewrite <- !mask_select_map.
  fold (times_of (zip3 times mags errs)) (mags_of (zip3 times mags errs))
       (errs_of (zip3 times mags errs)).
  rewrite times_of_zip3, mags_of_zip3, errs_of_zip3 by assumption.
  reflexivity.
Qed.

Lemma stddev_mag_is_scaled_mad :
  forall fmags, stddev_mag_of fmags = fmul (mad fmags) (Fin (1483 # 1000)).
Proof. reflexivity. Qed.

(** The three clipped arrays of lines 215-229 are the components of the
    samples within the clip. *)
Lemma sigclip_stage_samples :
  forall sigclip (l : list sample),
    sigclip_stage sigclip (times_of l) (mags_of l) (errs_of l) =
    (times_of (clipped_samples sigclip (stddev_mag_of (mags_of l)) l),
     mags_of (clipped_samples sigclip (stddev_mag_of (mags_of l)) l),
     errs_of (clipped_samples sigclip (stddev_mag_of (mags_of l)) l)).
Proof.
  intros [s|] l; simpl; [|reflexivity].
  destruct (float_truthy s); [|reflexivity].
  unfold sigind_of, median_mag_of.
  assert (Hm : map (fun m => flt (fabs (fsub m (npmedian (mags_of l))))
                                 (fmul s (stddev_mag_of (mags_of l))))
                   (mags_of l) =
               map (within_clip s (stddev_mag_of (mags_of l)) (mags_of l)) l).
  { unfold mags_of at 3. rewrite map_map. reflexivity. }
  rewrite Hm. unfold times_of, mags_of, errs_of.
  rewrite !mask_select_map. reflexivity.
Qed.

Lemma guard_length :
  forall l : list sample,
    (len (times_of l) >? 9) && (len (mags_of l) >? 9) && (len (errs_of l) >? 9)
    = (10 <=? length l)%nat.
Proof.
  intros l. unfold len, times_of, mags_of, errs_of, sample in *.
  rewrite !length_map.
  destruct (Nat.leb_spec 10 (length l)) as [H|H];
    destruct (Z.gtb_spec (Z.of_nat (length l)) 9); simpl; try reflexivity; lia.
Qed.

Section SearchProperties.

Variable get_frequency_grid : list float -> float -> float -> list float.
Variable npsqrt : float -> float.
Variable NCPUS : positive.

Local Abbreviation pdm := (stellingwerf_pdm get_frequency_grid npsqrt NCPUS).

(** The search in terms of the samples: both guards, then the grid, the pool,
    the map over the tasks and the peak selection. *)
Lemma pdm_on_samples :
  forall times mags errs autofreq startp endp normalize stepsize phasebinsize
         mindetperbin nbestpeaks periodepsilon sigclip nworkers,
    length times = length mags -> length mags = length errs ->
    let F := finite_samples times mags errs in
    let C := clipped_samples sigclip (stddev_mag_of (mags_of F)) F in
    pdm times mags errs autofreq startp endp normalize stepsize phasebinsize
        mindetperbin nbestpeaks periodepsilon sigclip nworkers =
    if (10 <=? length F)%nat && (10 <=? length C)%nat
    then
      frequencies <- frequencies_of get_frequency_grid autofreq startp endp
                                    stepsize (times_of C) ;;
      _ <- pool_size NCPUS nworkers ;;
      select_peaks
        (map stellingwerf_pdm_worker
             (tasks_of (times_of C) (nmags_of npsqrt normalize (mags_of C))
                       (errs_of C) frequencies phasebinsize mindetperbin))
        (map (fun f => fdiv (Fin 1) f) frequencies)
        nbestpeaks periodepsilon
    else Ok (null_result nbestpeaks).
Proof.
  intros times mags errs autofreq startp endp normalize stepsize phasebinsize
         mindetperbin nbestpeaks periodepsilon sigclip nworkers H1 H2 F C.
  unfold pdm, stellingwerf_pdm.
  rewrite (finite_filter_samples times mags errs H1 H2). cbn [bind].
  fold F. rewrite guard_length.
  destruct (10 <=? length F)%nat; [|reflexivity].
  rewrite sigclip_stage_samples. fold C. rewrite guard_length.
  destruct (10 <=? length C)%nat; reflexivity.
Qed.

(** C5: with fewer than 10 finite samples, or fewer than 10 samples within
    the sigma-clip, the search returns (it does not raise) the record whose
    [bestperiod] and [bestlspval] are nan and whose four arrays are [None]. *)
Theorem insufficient_data_returns_null :
  forall times mags errs autofreq startp endp normalize stepsize phasebinsize
         mindetperbin nbestpeaks periodepsilon sigclip nworkers,
    length times = length mags -> length mags = length errs ->
    let F := finite_samples times mags errs in
    let C := clipped_samples sigclip (stddev_mag_of (mags_of F)) F in
    (length F < 10)%nat \/ (length C < 10)%nat ->
    exists r,
      pdm times mags errs autofreq startp endp normalize stepsize phasebinsize
          mindetperbin nbestpeaks periodepsilon sigclip nworkers = Ok r /\
      npisfinite (bestperiod r) = false /\
      npisfinite (bestlspval r) = false /\
      nbestlspvals r = None /\ nbestperiods r = None /\
      lspvals r = None /\ periods r = None.
Proof.
  intros times mags errs autofreq startp endp normalize stepsize phasebinsize
         mindetperbin nbestpeaks periodepsilon sigclip nworkers H1 H2 F C Hlt.
  exists (null_result nbestpeaks). split; [|repeat split].
  rewrite pdm_on_samples by assumption. fold F. fold C.
  destruct Hlt as [Hlt|Hlt].
  - apply Nat.leb_gt in Hlt. rewrite Hlt. reflexivity.
  - apply Nat.leb_gt in Hlt. rewrite Hlt, andb_false_r. reflexivity.
Qed.

Lemma finite_filter_ok_lengths :
  forall times mags errs x,
    finite_filter times mags errs = Ok x ->
    length times = length mags /\ length mags = length errs.
Proof.
  intros times mags errs x. unfold finite_filter.
  destruct (length times =? length mags)%nat eqn:E1; [|discriminate].
  destruct (length mags =? length errs)%nat eqn:E2; [|discriminate].
  intros _. split; apply Nat.eqb_eq; assumption.
Qed.

Lemma select_peaks_arrays :
  forall lsp ps nbestpeaks periodepsilon r,
    select_peaks lsp ps nbestpeaks periodepsilon = Ok r ->
    lspvals r = Some lsp /\ periods r = Some ps.
Proof.
  intros lsp ps nb eps r. unfold select_peaks.
  destruct (npargmin _); [|discriminate]. cbn [bind].
  destruct (index0 (take_inds (mask_select _ lsp) _)); [|discriminate].
  cbn [bind].
  destruct (index0 _); [|discriminate]. cbn [bind].
  destruct (peak_loop _ _ _ _) as [[[nbp nbv] pc] pp].
  intros H. inversion H. split; reflexivity.
Qed.

(** A search that returns arrays went through both guards, the grid and the
    peak selection. *)
Lemma pdm_success :
  forall times mags errs autofreq startp endp normalize stepsize phasebinsize
         mindetperbin nbestpeaks periodepsilon sigclip nworkers r,
    pdm times mags errs autofreq startp endp normalize stepsize phasebinsize
        mindetperbin nbestpeaks periodepsilon sigclip nworkers = Ok r ->
    lspvals r <> None ->
    length times = length mags /\ length mags = length errs /\
    let F := finite_samples times mags errs in
    let C := clipped_samples sigclip (stddev_mag_of (mags_of F)) F in
    exists frequencies,
      frequencies_of get_frequency_grid autofreq startp endp stepsize
                     (times_of C) = Ok frequencies /\
      select_peaks
        (map stellingwerf_pdm_worker
             (tasks_of (times_of C) (nmags_of npsqrt normalize (mags_of C))
                       (errs_of C) frequencies phasebinsize mindetperbin))
        (map (fun f => fdiv (Fin 1) f) frequencies)
        nbestpeaks periodepsilon = Ok r.
Proof.
  intros times mags errs autofreq startp endp normalize stepsize phasebinsize
         mindetperbin nbestpeaks periodepsilon sigclip nworkers r Hr Hl.
  assert (Hlen : length times = length mags /\ length mags = length errs).
  { unfold stellingwerf_pdm in Hr.
    destruct (finite_filter times mags errs) as [x|e] eqn:E; [|discriminate].
    exact (finite_filter_ok_lengths _ _ _ _ E). }
  destruct Hlen as [H1 H2]. split; [exact H1|]. split; [exact H2|].
  intros F C. rewrite pdm_on_samples in Hr by assumption. fold F C in Hr.
  destruct ((10 <=? length F)%nat && (10 <=? length C)%nat).
  - destruct (frequencies_of _ _ _ _ _ _) as [frequencies|e]; [|discriminate].
    cbn [bind] in Hr.
    destruct (pool_size NCPUS nworkers); [|discriminate]. cbn [bind] in Hr.
    exists frequencies. split; [reflexivity|exact Hr].
  - inversion Hr; subst r. simpl in Hl. congruence.
Qed.

(** C9: for a search that returns its arrays, [periods] and [lspvals] have
    the length of the frequency grid, [periods[i] = 1/frequencies[i]], and
    [lspvals[i]] is the worker's value on the task of [frequencies[i]]. *)
Theorem spectrum_follows_grid :
  forall times mags errs autofreq startp endp normalize stepsize phasebinsize
         mindetperbin nbestpeaks periodepsilon sigclip nworkers r lsp ps,
    pdm times mags errs autofreq startp endp normalize stepsize phasebinsize
        mindetperbin nbestpeaks periodepsilon sigclip nworkers = Ok r ->
    lspvals r = Some lsp -> periods r = Some ps ->
    let F := finite_samples times mags errs in
    let C := clipped_samples sigclip (stddev_mag_of (mags_of F)) F in
    exists frequencies,
      frequencies_of get_frequency_grid autofreq startp endp stepsize
                     (times_of C) = Ok frequencies /\
      length ps = length frequencies /\
      length lsp = length frequencies /\
      forall i f,
        nth_error frequencies i = Some f ->
        nth_error ps i = Some (fdiv (Fin 1) f) /\
        nth_error lsp i =
        Some (stellingwerf_pdm_worker
                (times_of C, nmags_of npsqrt normalize (mags_of C), errs_of C,
                 f, phasebinsize, mindetperbin)).
Proof.
  intros times mags errs autofreq startp endp normalize stepsize phasebinsize
         mindetperbin nbestpeaks periodepsilon sigclip nworkers r lsp ps
         Hr Hlsp Hps F C.
  destruct (pdm_success _ _ _ _ _ _ _ _ _ _ _ _ _ _ _ Hr) as (_ & _ & Hex).
  { congruence. }
  destruct Hex as (frequencies & Hf & Hsel).
  apply select_peaks_arrays in Hsel. destruct Hsel as [Hl Hp].
  rewrite Hlsp in Hl. rewrite Hps in Hp.
  inversion Hl; subst lsp. inversion Hp; subst ps.
  exists frequencies. split; [exact Hf|].
  unfold tasks_of. rewrite !length_map. repeat split.
  - rewrite nth_error_map, H. reflexivity.
  - rewrite !nth_error_map, H. reflexivity.
Qed.

End SearchProperties.

Lemma insufficient_data_returns_null_witness :
  exists r,
    stellingwerf_pdm grid_unused sqrt_unused 4%positive
      flat_times flat_mags flat_errs true None None false
      (Fin (1 # 10000)) (Fin (1 # 20)) 9 5 (Fin (1 # 10)) (Some (Fin 10)) None
    = Ok r /\
    npisfinite (bestperiod r) = false /\
    npisfinite (bestlspval r) = false /\
    nbestlspvals r = None /\ nbestperiods r = None /\
    lspvals r = None /\ periods r = None.
Proof.
  apply (insufficient_data_returns_null grid_unused sqrt_unused 4%positive
           flat_times flat_mags flat_errs true None None false
           (Fin (1 # 10000)) (Fin (1 # 20)) 9 5 (Fin (1 # 10))
           (Some (Fin 10)) None).
  - reflexivity.
  - reflexivity.
  - right. vm_compute. lia.
Defined.

Lemma spectrum_follows_grid_witness :
  exists frequencies,
    frequencies_of grid_unused false (Some (Fin (8 # 5))) (Some (Fin 4))
                   (Fin (1 # 4)) sample_times = Ok frequencies /\
    length [Fin 4; Fin 2] = length frequencies /\
    length [Fin 0; Fin (22 # 25)] = length frequencies /\
    forall i f,
      nth_error frequencies i = Some f ->
      nth_error [Fin 4; Fin 2] i = Some (fdiv (Fin 1) f) /\
      nth_error [Fin 0; Fin (22 # 25)] i =
      Some (stellingwerf_pdm_worker
              (sample_times, sample_mags, sample_errs, f, Fin (1 # 4), 2)).
Proof.
  apply (spectrum_follows_grid grid_unused sqrt_unused 4%positive
           sample_times sample_mags sample_errs
           false (Some (Fin (8 # 5))) (Some (Fin 4)) false
           (Fin (1 # 4)) (Fin (1 # 4)) 2 5 (Fin (1 # 10)) None None
           {| bestperiod := Fin 4; bestlspval := Fin 0; nbestpeaks := 5;
              nbestlspvals := Some [Fin 0; Fin (22 # 25)];
              nbestperiods := Some [Fin 4; Fin 2];
              lspvals := Some [Fin 0; Fin (22 # 25)];
              periods := Some [Fin 4; Fin 2];
              method := "pdm" |}
           [Fin 0; Fin (22 # 25)] [Fin 4; Fin 2]).
  - vm_compute. reflexivity.
  - reflexivity.
  - reflexivity.
Defined.

(** ** The robust scale and the clip *)

(** C8 as stated fails: on [clip_mags] the median absolute deviation is 1,
    the code's scale is 1.483 and not 1.4826, and with [sigclip=10] the code
    keeps the sample at 14.828 that the rule with the scale 1.4826 rejects. *)
Lemma scale_is_not_14826_mad :
  mad clip_mags = Fin 1 /\
  stddev_mag_of clip_mags = Fin (1483 # 1000) /\
  stddev_mag_of clip_mags <> scale_14826 clip_mags /\
  (let '(stimes, smags, serrs) :=
     sigclip_stage (Some (Fin 10)) clip_times clip_mags clip_errs in
   length smags) = 11%nat /\
  length (clipped_samples (Some (Fin 10)) (scale_14826 clip_mags)
            (zip3 clip_times clip_mags clip_errs)) = 10%nat.
Proof.
  repeat split; try (vm_compute; reflexivity).
  vm_compute. discriminate.
Qed.

(** C8, amended: the scale is 1.483 x the median absolute deviation of the
    finite magnitudes from their median, and with a clip configured the
    arrays that go on are exactly the finite samples with
    [|mag - median| < sigclip * scale], in their order. *)
Theorem sigclip_scale_and_retention :
  forall times mags errs s,
    length times = length mags -> length mags = length errs ->
    float_truthy s = true ->
    let F := finite_samples times mags errs in
    let scale := fmul (mad (mags_of F)) (Fin (1483 # 1000)) in
    let C := filter (within_clip s scale (mags_of F)) F in
    finite_filter times mags errs = Ok (times_of F, mags_of F, errs_of F) /\
    stddev_mag_of (mags_of F) = scale /\
    sigclip_stage (Some s) (times_of F) (mags_of F) (errs_of F) =
    (times_of C, mags_of C, errs_of C).
Proof.
  intros times mags errs s H1 H2 Hs F scale C.
  split; [apply finite_filter_samples; assumption|].
  split; [reflexivity|].
  rewrite sigclip_stage_samples. unfold clipped_samples. rewrite Hs.
  reflexivity.
Qed.

Lemma sigclip_scale_and_retention_witness :
  let F := finite_samples clip_times clip_mags clip_errs in
  let scale := fmul (mad (mags_of F)) (Fin (1483 # 1000)) in
  let C := filter (within_clip (Fin 10) scale (mags_of F)) F in
  finite_filter clip_times clip_mags clip_errs =
  Ok (times_of F, mags_of F, errs_of F) /\
  stddev_mag_of (mags_of F) = scale /\
  sigclip_stage (Some (Fin 10)) (times_of F) (mags_of F) (errs_of F) =
  (times_of C, mags_of C, errs_of C).
Proof.
  apply (sigclip_scale_and_retention clip_times clip_mags clip_errs (Fin 10));
    reflexivity.
Defined.

(** ** Arithmetic of the period distances *)

Lemma fin_eq : forall a b : Q, (a == b)%Q -> fin a = fin b.
Proof. intros a b H. unfold fin. f_equal. apply Qred_complete. exact H. Qed.

Lemma fabs_fsub_sym : forall p q, fabs (fsub p q) = fabs (fsub q p).
Proof.
  intros [a| | |] [b| | |]; try reflexivity.
  unfold fsub, fabs, fin at 1 3. apply fin_eq. rewrite !Qred_correct.
  setoid_replace (b - a)%Q with (- (a - b))%Q by ring.
  rewrite Qabs_opp. reflexivity.
Qed.

Lemma fabs_fsub_self :
  forall p, fabs (fsub p p) = Fin 0 \/ fabs (fsub p p) = NaN.
Proof.
  intros [a| | |]; auto. left.
  unfold fsub, fabs, fin at 1.
  change (Fin 0) with (fin 0). apply fin_eq.
  rewrite Qred_correct. setoid_replace (a - a)%Q with 0%Q by ring.
  reflexivity.
Qed.

Lemma fle_zero_not_flt :
  forall e, fle (Fin 0) e = true -> flt e (Fin 0) = false.
Proof.
  intros [e| | |]; simpl; try discriminate; try reflexivity.
  unfold Qltb. intros H. rewrite H. reflexivity.
Qed.

(** A candidate equal to the previous one is never accepted when
    [periodepsilon] is not negative. *)
Lemma same_period_rejected :
  forall p e, fle (Fin 0) e = true -> fgt (fabs (fsub p p)) e = false.
Proof.
  intros p e He. unfold fgt.
  destruct (fabs_fsub_self p) as [H|H]; rewrite H.
  - apply fle_zero_not_flt. exact He.
  - destruct e; reflexivity.
Qed.

(** ** The peak walk *)

Lemma separated_single : forall e x, separated e [x].
Proof.
  intros e x i j p q Hij Hi Hj.
  destruct i as [|i]; destruct j as [|j]; try congruence;
    simpl in *; try (destruct i; discriminate); destruct j; discriminate.
Qed.

Lemma separated_snoc :
  forall e l p,
    separated e l ->
    forallb (fun x => fgt x e) (map (fun x => fabs (fsub p x)) l) = true ->
    separated e (l ++ [p]).
Proof.
  intros e l p Hsep Hall i j a b Hij Hi Hj.
  rewrite forallb_forall in Hall.
  assert (Hnew : forall x, In x l -> fgt (fabs (fsub p x)) e = true).
  { intros x Hx. apply Hall. apply in_map_iff. exists x. auto. }
  assert (Hlast : forall k c, nth_error (l ++ [p]) k = Some c ->
                    (k < length l)%nat /\ nth_error l k = Some c \/
                    k = length l /\ c = p).
  { intros k c Hk. destruct (Nat.lt_ge_cases k (length l)) as [Hlt|Hge].
    - left. split; [exact Hlt|]. rewrite nth_error_app1 in Hk; assumption.
    - right. rewrite nth_error_app2 in Hk by exact Hge.
      destruct (k - length l)%nat as [|d] eqn:Ed; simpl in Hk.
      + split; [lia|congruence].
      + destruct d; discriminate. }
  destruct (Hlast i a Hi) as [[Hil Hia]|[Hil Hia]];
    destruct (Hlast j b Hj) as [[Hjl Hjb]|[Hjl Hjb]].
  - exact (Hsep i j a b Hij Hia Hjb).
  - subst b. rewrite fabs_fsub_sym. apply Hnew.
    exact (nth_error_In _ _ Hia).
  - subst a. apply Hnew. exact (nth_error_In _ _ Hjb).
  - lia.
Qed.

(** What one run of the loop keeps: the accepted periods extend the initial
    list by at most one entry per candidate, stay pairwise separated, and
    [peakcount] stays their number and never passes [nbestpeaks]. *)
Lemma peak_loop_inv :
  forall nb e l nbp nbv pc prev,
    exists ext extv prev',
      peak_loop nb e l (nbp, nbv, pc, prev) =
      (nbp ++ ext, nbv ++ extv, pc + len ext, prev') /\
      (length ext <= length l)%nat /\
      length extv = length ext /\
      (separated e nbp -> separated e (nbp ++ ext)) /\
      (pc <= nb -> pc + len ext <= nb).
Proof.
  intros nb e l. induction l as [|[period lspval] l IH];
    intros nbp nbv pc prev.
  - exists [], [], prev. simpl. rewrite !app_nil_r, Z.add_0_r.
    repeat split; auto.
  - simpl. destruct (Z.eqb_spec pc nb) as [Heq|Hne].
    + exists [], [], prev. rewrite !app_nil_r. unfold len. simpl.
      rewrite Z.add_0_r. repeat split; auto; lia.
    + destruct (fgt (fabs (fsub period prev)) e) eqn:Hd; simpl.
      * destruct (forallb _ _) eqn:Hall.
        -- destruct (IH (nbp ++ [period]) (nbv ++ [lspval]) (pc + 1) period)
             as (ext & extv & prev' & Heq & Hlen & Hlv & Hsep & Hpc).
           exists (period :: ext), (lspval :: extv), prev'.
           rewrite Heq, <- !app_assoc. simpl.
           unfold len in *. simpl length.
           repeat split; try lia.
           ++ f_equal. f_equal. lia.
           ++ intros Hs. change (period :: ext) with ([period] ++ ext).
              rewrite app_assoc. apply Hsep. apply separated_snoc; assumption.
        -- destruct (IH nbp nbv pc period)
             as (ext & extv & prev' & Heq & Hlen & Hlv & Hsep & Hpc).
           exists ext, extv, prev'. rewrite Heq. repeat split; auto.
      * destruct (IH nbp nbv pc period)
          as (ext & extv & prev' & Heq & Hlen & Hlv & Hsep & Hpc).
        exists ext, extv, prev'. rewrite Heq. repeat split; auto.
Qed.

(** With [periodepsilon >= 0] the first candidate, which equals [prevperiod],
    is skipped, so the walk adds fewer entries than there are candidates. *)
Lemma peak_loop_first_skipped :
  forall nb e period lspval l nbp nbv pc,
    fle (Fin 0) e = true ->
    exists ext extv prev',
      peak_loop nb e ((period, lspval) :: l) (nbp, nbv, pc, period) =
      (nbp ++ ext, nbv ++ extv, pc + len ext, prev') /\
      (length ext <= length l)%nat /\
      length extv = length ext /\
      (separated e nbp -> separated e (nbp ++ ext)) /\
      (pc <= nb -> pc + len ext <= nb).
Proof.
  intros nb e period lspval l nbp nbv pc He. simpl.
  rewrite (same_period_rejected period e He). simpl.
  destruct (Z.eqb_spec pc nb) as [Heq|Hne].
  - exists [], [], period. rewrite !app_nil_r. unfold len. simpl.
    rewrite Z.add_0_r. repeat split; auto; lia.
  - apply peak_loop_inv.
Qed.

(** ** Sorting and masking keep the lengths *)

Lemma length_insert_by :
  forall {A} (key : A -> float) x l,
    length (insert_by key x l) = S (length l).
Proof.
  intros A key x l. induction l as [|y l IH]; simpl; [reflexivity|].
  destruct (sort_le (key x) (key y)); simpl; [|rewrite IH]; reflexivity.
Qed.

Lemma length_sort_by :
  forall {A} (key : A -> float) l, length (sort_by key l) = length l.
Proof.
  intros A key l. induction l as [|x l IH]; [reflexivity|].
  change (sort_by key (x :: l)) with (insert_by key x (sort_by key l)).
  rewrite length_insert_by, IH. reflexivity.
Qed.

Lemma length_npargsort : forall a, length (npargsort a) = length a.
Proof.
  intros a. unfold npargsort.
  rewrite length_map, length_sort_by, length_combine, length_seq.
  apply Nat.min_id.
Qed.

Lemma length_take_inds : forall a ind, length (take_inds a ind) = length ind.
Proof. intros a ind. apply length_map. Qed.

Lemma mask_select_self :
  forall {A} (f : A -> bool) (l : list A),
    mask_select (map f l) l = filter f l.
Proof.
  intros A f l. rewrite <- (map_id l) at 2. rewrite mask_select_map.
  apply map_id.
Qed.

(** ** Peak selection *)

Lemma select_peaks_inv :
  forall lsp ps nb e r,
    select_peaks lsp ps nb e = Ok r ->
    let finlsp := filter npisfinite lsp in
    let finperiods := mask_select (map npisfinite lsp) ps in
    exists i ext extv,
      npargmin finlsp = Ok i /\
      bestperiod r = nth i finperiods NaN /\
      bestlspval r = nth i finlsp NaN /\
      nbestperiods r = Some (nth i finperiods NaN :: ext) /\
      nbestlspvals r = Some (nth i finlsp NaN :: extv) /\
      length extv = length ext /\
      (length ext <= length finlsp)%nat /\
      (fle (Fin 0) e = true -> (S (length ext) <= length finlsp)%nat) /\
      separated e (nth i finperiods NaN :: ext) /\
      (1 <= nb -> 1 + len ext <= nb).
Proof.
  intros lsp ps nb e r. unfold select_peaks.
  rewrite mask_select_self.
  set (finlsp := filter npisfinite lsp).
  set (finperiods := mask_select (map npisfinite lsp) ps).
  destruct (npargmin finlsp) as [i|] eqn:Hi; [|discriminate]. cbn [bind].
  set (sp := take_inds finperiods (npargsort finlsp)).
  set (sv := take_inds finlsp (npargsort finlsp)).
  assert (Hsp : length sp = length finlsp).
  { unfold sp. rewrite length_take_inds. apply length_npargsort. }
  assert (Hsv : length sv = length finlsp).
  { unfold sv. rewrite length_take_inds. apply length_npargsort. }
  destruct sv as [|v sv']; [discriminate|]. cbn [index0 bind].
  destruct sp as [|prev sp']; [discriminate|]. cbn [index0 bind combine].
  set (bp := nth i finperiods NaN). set (bv := nth i finlsp NaN).
  destruct (peak_loop_inv nb e ((prev, v) :: combine sp' sv') [bp] [bv] 1 prev)
    as (ext & extv & prev' & Heq & Hlen & Hlv & Hsep & Hpc).
  rewrite Heq. intros H. inversion H; subst r; clear H. cbn.
  exists i, ext, extv. repeat split; auto.
  - simpl in Hlen, Hsp. rewrite length_combine in Hlen. simpl in Hsv. lia.
  - intros He.
    destruct (peak_loop_first_skipped nb e prev v (combine sp' sv') [bp] [bv] 1 He)
      as (ext2 & extv2 & prev2 & Heq2 & Hlen2 & _).
    rewrite Heq in Heq2. inversion Heq2 as [[Hext Hextv Hpc2 Hprev]].
    subst ext2. rewrite length_combine in Hlen2. simpl in Hsp, Hsv. lia.
  - apply Hsep. apply separated_single.
Qed.

(** ** The minimum of the finite values *)

Lemma fle_refl_finite : forall x, npisfinite x = true -> fle x x = true.
Proof.
  intros [a| | |] H; try discriminate. simpl.
  apply Qle_bool_iff. apply Qle_refl.
Qed.

Lemma flt_fle_trans :
  forall x y z, flt x y = true -> fle y z = true -> fle x z = true.
Proof.
  intros [a| | |] [b| | |] [c| | |]; simpl; try discriminate; try reflexivity.
  unfold Qltb. intros H1 H2. apply Qle_bool_iff. apply Qle_bool_iff in H2.
  destruct (Qle_bool b a) eqn:E; [discriminate|].
  assert (Hlt : (a < b)%Q).
  { apply Qnot_le_lt. intros Hc. apply Qle_bool_iff in Hc. congruence. }
  apply Qlt_le_weak. eapply Qlt_le_trans; eassumption.
Qed.

Lemma not_flt_fle :
  forall x y, npisfinite x = true -> npisfinite y = true ->
              flt x y = false -> fle y x = true.
Proof.
  intros [a| | |] [b| | |]; simpl; try discriminate.
  unfold Qltb. intros _ _ H. destruct (Qle_bool b a); [reflexivity|discriminate].
Qed.

Lemma lt_nanfirst_finite :
  forall x y, npisfinite x = true -> npisfinite y = true ->
              lt_nanfirst x y = flt x y.
Proof. intros [a| | |] [b| | |]; simpl; try discriminate; reflexivity. Qed.

Lemma argmin_from_spec :
  forall l pre best bestv,
    Forall (fun x => npisfinite x = true) (pre ++ l) ->
    nth_error (pre ++ l) best = Some bestv ->
    (forall v, In v pre -> fle bestv v = true) ->
    exists kv,
      nth_error (pre ++ l) (argmin_from l (length pre) best bestv) = Some kv /\
      forall v, In v (pre ++ l) -> fle kv v = true.
Proof.
  induction l as [|x l IH]; intros pre best bestv Hfin Hbest Hmin.
  - simpl. exists bestv. split; [exact Hbest|].
    intros v Hv. rewrite app_nil_r in Hv. auto.
  - simpl.
    assert (Hx : npisfinite x = true).
    { rewrite Forall_forall in Hfin. apply Hfin.
      apply in_or_app. right. left. reflexivity. }
    assert (Hb : npisfinite bestv = true).
    { rewrite Forall_forall in Hfin. apply Hfin.
      exact (nth_error_In _ _ Hbest). }
    assert (Hsplit : pre ++ x :: l = (pre ++ [x]) ++ l).
    { rewrite <- app_assoc. reflexivity. }
    assert (Hlen : S (length pre) = length (pre ++ [x])).
    { rewrite length_app. simpl. lia. }
    rewrite Hsplit in *. rewrite Hlen.
    rewrite (lt_nanfirst_finite x bestv Hx Hb).
    destruct (flt x bestv) eqn:Hlt.
    + apply IH; [exact Hfin| |].
      * rewrite nth_error_app1 by (rewrite length_app; simpl; lia).
        rewrite nth_error_app2 by lia. rewrite Nat.sub_diag. reflexivity.
      * intros v Hv. apply in_app_or in Hv. destruct Hv as [Hv|[Hv|[]]].
        -- eapply flt_fle_trans; [exact Hlt|]. auto.
        -- subst v. apply fle_refl_finite. exact Hx.
    + apply IH; [exact Hfin|exact Hbest|].
      intros v Hv. apply in_app_or in Hv. destruct Hv as [Hv|[Hv|[]]].
      * auto.
      * subst v. apply not_flt_fle; assumption.
Qed.

Lemma npargmin_spec :
  forall a i,
    Forall (fun x => npisfinite x = true) a ->
    npargmin a = Ok i ->
    exists kv, nth_error a i = Some kv /\
               forall v, In v a -> fle kv v = true.
Proof.
  intros [|x a] i Hfin H; [discriminate|]. simpl in H. inversion H; subst i.
  apply (argmin_from_spec a [x] 0%nat x Hfin eq_refl).
  intros v [Hv|[]]. subst v. apply fle_refl_finite.
  inversion Hfin; assumption.
Qed.

(** Zipping two arrays of the same length and projecting gives them back. *)
Lemma unzip_combine :
  forall {X Y} (xs : list X) (ys : list Y),
    length xs = length ys ->
    map fst (combine xs ys) = xs /\ map snd (combine xs ys) = ys.
Proof.
  intros X Y xs. induction xs as [|x xs IH]; intros [|y ys] Hlen;
    simpl in Hlen; try discriminate; [split; reflexivity|].
  destruct (IH ys (eq_add_S _ _ Hlen)) as [Hf Hs].
  cbn [combine map fst snd]. rewrite Hf, Hs. split; reflexivity.
Qed.

(** The best period and its theta are an entry of the spectrum whose theta is
    finite and below every other finite theta. *)
Lemma select_peaks_best :
  forall lsp ps nb e r,
    length ps = length lsp ->
    select_peaks lsp ps nb e = Ok r ->
    In (bestperiod r, bestlspval r) (combine ps lsp) /\
    npisfinite (bestlspval r) = true /\
    forall v, In v lsp -> npisfinite v = true -> fle (bestlspval r) v = true.
Proof.
  intros lsp ps nb e r Hlen Hsel.
  destruct (select_peaks_inv _ _ _ _ _ Hsel)
    as (i & ext & extv & Hi & Hbp & Hbv & _).
  set (Z := combine ps lsp) in *.
  set (keep := fun pv : float * float => npisfinite (snd pv)).
  assert (Hlsp : filter npisfinite lsp = map snd (filter keep Z)).
  { rewrite <- mask_select_self.
    rewrite <- (proj2 (unzip_combine ps lsp Hlen)) at 1 2. fold Z.
    rewrite map_map. apply (mask_select_map keep snd Z). }
  assert (Hps : mask_select (map npisfinite lsp) ps = map fst (filter keep Z)).
  { rewrite <- (proj2 (unzip_combine ps lsp Hlen)) at 1.
    rewrite <- (proj1 (unzip_combine ps lsp Hlen)) at 2. fold Z.
    rewrite map_map. apply (mask_select_map keep fst Z). }
  rewrite Hps in Hbp. rewrite Hlsp in Hbv, Hi.
  assert (Hfin : Forall (fun x => npisfinite x = true) (map snd (filter keep Z))).
  { apply Forall_forall. intros x Hx. apply in_map_iff in Hx.
    destruct Hx as ([p v] & Hv & Hin). apply filter_In in Hin.
    simpl in Hv. subst x. exact (proj2 Hin). }
  destruct (npargmin_spec _ _ Hfin Hi) as (kv & Hk & Hmin).
  assert (Hil : (i < length (filter keep Z))%nat).
  { rewrite <- (length_map snd). apply nth_error_Some. congruence. }
  destruct (nth_error (filter keep Z) i) as [[p v]|] eqn:Hn.
  2:{ apply nth_error_None in Hn. lia. }
  assert (Hp : nth i (map fst (filter keep Z)) NaN = p).
  { apply nth_error_nth with (d := NaN). rewrite nth_error_map, Hn. reflexivity. }
  assert (Hv : nth i (map snd (filter keep Z)) NaN = v).
  { apply nth_error_nth with (d := NaN). rewrite nth_error_map, Hn. reflexivity. }
  rewrite Hp in Hbp. rewrite Hv in Hbv. rewrite Hbp, Hbv.
  rewrite nth_error_map, Hn in Hk. simpl in Hk. inversion Hk; subst kv.
  apply nth_error_In in Hn. apply filter_In in Hn. destruct Hn as [HinZ Hkeep].
  split; [exact HinZ|]. split; [exact Hkeep|].
  intros w Hw Hwf. apply Hmin. rewrite <- Hlsp. apply filter_In. auto.
Qed.

Section PeakProperties.

Variable get_frequency_grid : list float -> float -> float -> list float.
Variable npsqrt : float -> float.
Variable NCPUS : positive.

Local Abbreviation pdm := (stellingwerf_pdm get_frequency_grid npsqrt NCPUS).

(** The arrays of a returned result come out of the peak selection on a
    spectrum whose two arrays have the same length. *)
Lemma pdm_success_peaks :
  forall times mags errs autofreq startp endp normalize stepsize phasebinsize
         mindetperbin nbestpeaks periodepsilon sigclip nworkers r lsp ps,
    pdm times mags errs autofreq startp endp normalize stepsize phasebinsize
        mindetperbin nbestpeaks periodepsilon sigclip nworkers = Ok r ->
    lspvals r = Some lsp -> periods r = Some ps ->
    length ps = length lsp /\
    select_peaks lsp ps nbestpeaks periodepsilon = Ok r.
Proof.
  intros times mags errs autofreq startp endp normalize stepsize phasebinsize
         mindetperbin nbestpeaks periodepsilon sigclip nworkers r lsp ps
         Hr Hlsp Hps.
  destruct (pdm_success get_frequency_grid npsqrt NCPUS
              _ _ _ _ _ _ _ _ _ _ _ _ _ _ _ Hr)
    as (_ & _ & frequencies & _ & Hsel).
  { congruence. }
  destruct (select_peaks_arrays _ _ _ _ _ Hsel) as [Hl Hp].
  rewrite Hlsp in Hl. rewrite Hps in Hp.
  inversion Hl; subst lsp. inversion Hp; subst ps.
  split; [|exact Hsel]. unfold tasks_of. rewrite !length_map. reflexivity.
Qed.

(** C3, amended: a search that returns its peaks with [nbestpeaks >= 1] and
    [periodepsilon >= 0] reports at least one period and at most
    [min(nbestpeaks, number of finite theta values)]; candidates within
    [periodepsilon] of the previous candidate or of an accepted period are
    skipped, so the bound need not be reached. *)
Theorem nbest_count_bounds :
  forall times mags errs autofreq startp endp normalize stepsize phasebinsize
         mindetperbin nbestpeaks periodepsilon sigclip nworkers r nbp lsp ps,
    pdm times mags errs autofreq startp endp normalize stepsize phasebinsize
        mindetperbin nbestpeaks periodepsilon sigclip nworkers = Ok r ->
    nbestperiods r = Some nbp ->
    lspvals r = Some lsp -> periods r = Some ps ->
    1 <= nbestpeaks ->
    fle (Fin 0) periodepsilon = true ->
    1 <= len nbp <= Z.min nbestpeaks (len (filter npisfinite lsp)).
Proof.
  intros times mags errs autofreq startp endp normalize stepsize phasebinsize
         mindetperbin nbestpeaks periodepsilon sigclip nworkers r nbp lsp ps
         Hr Hnbp Hlsp Hps Hnb He.
  destruct (pdm_success_peaks _ _ _ _ _ _ _ _ _ _ _ _ _ _ _ _ _ Hr Hlsp Hps)
    as [_ Hsel].
  destruct (select_peaks_inv _ _ _ _ _ Hsel)
    as (i & ext & extv & _ & _ & _ & Hn & _ & _ & _ & Hfirst & _ & Hpc).
  rewrite Hnbp in Hn. inversion Hn; subst nbp.
  specialize (Hfirst He). specialize (Hpc Hnb).
  unfold len in *. simpl length. lia.
Qed.

(** C7: in a search that returns its peaks, the first reported period is a
    grid period whose theta is finite and not above any other finite theta,
    and every two reported periods differ by more than [periodepsilon]. *)
Theorem best_period_first_and_separated :
  forall times mags errs autofreq startp endp normalize stepsize phasebinsize
         mindetperbin nbestpeaks periodepsilon sigclip nworkers r nbp lsp ps,
    pdm times mags errs autofreq startp endp normalize stepsize phasebinsize
        mindetperbin nbestpeaks periodepsilon sigclip nworkers = Ok r ->
    nbestperiods r = Some nbp ->
    lspvals r = Some lsp -> periods r = Some ps ->
    (exists p0 v0,
        nth_error nbp 0 = Some p0 /\
        In (p0, v0) (combine ps lsp) /\
        npisfinite v0 = true /\
        forall v, In v lsp -> npisfinite v = true -> fle v0 v = true) /\
    (forall i j p q,
        i <> j -> nth_error nbp i = Some p -> nth_error nbp j = Some q ->
        fgt (fabs (fsub p q)) periodepsilon = true).
Proof.
  intros times mags errs autofreq startp endp normalize stepsize phasebinsize
         mindetperbin nbestpeaks periodepsilon sigclip nworkers r nbp lsp ps
         Hr Hnbp Hlsp Hps.
  destruct (pdm_success_peaks _ _ _ _ _ _ _ _ _ _ _ _ _ _ _ _ _ Hr Hlsp Hps)
    as [Hlen Hsel].
  destruct (select_peaks_best _ _ _ _ _ Hlen Hsel) as (Hin & Hfin & Hmin).
  destruct (select_peaks_inv _ _ _ _ _ Hsel)
    as (i & ext & extv & _ & Hbp & _ & Hn & _ & _ & _ & _ & Hsep & _).
  rewrite Hnbp in Hn. inversion Hn; subst nbp.
  split.
  - exists (bestperiod r), (bestlspval r). rewrite Hbp at 1.
    repeat split; auto.
  - exact Hsep.
Qed.

End PeakProperties.

(** C3 as stated fails: with [periodepsilon=3] the sample has two finite
    theta values (periods 4 and 2) and [nbestpeaks=5], and one period is
    reported, not [min(5, 2) = 2]. *)
Lemma nbest_count_not_min :
  exists r nbp lsp,
    sample_search (Some (Fin 4)) 2 (Fin 3) = Ok r /\
    nbestperiods r = Some nbp /\ lspvals r = Some lsp /\
    nbestpeaks r = 5 /\
    len (filter npisfinite lsp) = 2 /\
    len nbp = 1 /\
    len nbp <> Z.min (nbestpeaks r) (len (filter npisfinite lsp)).
Proof.
  eexists. eexists. eexists.
  split; [vm_compute; reflexivity|].
  repeat split; try reflexivity.
  vm_compute. discriminate.
Qed.

Lemma nbest_count_bounds_witness :
  1 <= len [Fin 4] <= Z.min 5 (len (filter npisfinite [Fin 0; Fin (22 # 25)])).
Proof.
  apply (nbest_count_bounds grid_unused sqrt_unused 4%positive
           sample_times sample_mags sample_errs
           false (Some (Fin (8 # 5))) (Some (Fin 4)) false
           (Fin (1 # 4)) (Fin (1 # 4)) 2 5 (Fin 3) None None
           {| bestperiod := Fin 4; bestlspval := Fin 0; nbestpeaks := 5;
              nbestlspvals := Some [Fin 0];
              nbestperiods := Some [Fin 4];
              lspvals := Some [Fin 0; Fin (22 # 25)];
              periods := Some [Fin 4; Fin 2];
              method := "pdm" |}
           [Fin 4] [Fin 0; Fin (22 # 25)] [Fin 4; Fin 2]).
  - vm_compute. reflexivity.
  - reflexivity.
  - reflexivity.
  - reflexivity.
  - lia.
  - reflexivity.
Defined.

Lemma best_period_first_and_separated_witness :
  (exists p0 v0,
      nth_error [Fin 4; Fin 2] 0 = Some p0 /\
      In (p0, v0) (combine [Fin 4; Fin 2] [Fin 0; Fin (22 # 25)]) /\
      npisfinite v0 = true /\
      forall v, In v [Fin 0; Fin (22 # 25)] -> npisfinite v = true ->
                fle v0 v = true) /\
  (forall i j p q,
      i <> j -> nth_error [Fin 4; Fin 2] i = Some p ->
      nth_error [Fin 4; Fin 2] j = Some q ->
      fgt (fabs (fsub p q)) (Fin (1 # 10)) = true).
Proof.
  apply (best_period_first_and_separated grid_unused sqrt_unused 4%positive
           sample_times sample_mags sample_errs
           false (Some (Fin (8 # 5))) (Some (Fin 4)) false
           (Fin (1 # 4)) (Fin (1 # 4)) 2 5 (Fin (1 # 10)) None None
           {| bestperiod := Fin 4; bestlspval := Fin 0; nbestpeaks := 5;
              nbestlspvals := Some [Fin 0; Fin (22 # 25)];
              nbestperiods := Some [Fin 4; Fin 2];
              lspvals := Some [Fin 0; Fin (22 # 25)];
              periods := Some [Fin 4; Fin 2];
              method := "pdm" |}
           [Fin 4; Fin 2] [Fin 0; Fin (22 # 25)] [Fin 4; Fin 2]).
  - vm_compute. reflexivity.
  - reflexivity.
  - reflexivity.
  - reflexivity.
Defined.

(** ** The phase bins *)


Lemma sort_le_total :
  forall x y, sort_le x y = false -> sort_le y x = true.
Proof.
  intros [a| | |] [b| | |]; cbn [sort_le fle]; try discriminate;
    try reflexivity.
  intros H. apply Qle_bool_iff.
  destruct (Qlt_le_dec b a) as [Hlt|Hle]; [apply Qlt_le_weak; exact Hlt|].
  apply Qle_bool_iff in Hle. congruence.
Qed.

Lemma sort_le_trans :
  forall x y z, sort_le x y = true -> sort_le y z = true -> sort_le x z = true.
Proof.
  intros [a| | |] [b| | |] [c| | |]; cbn [sort_le fle]; try discriminate;
    try reflexivity.
  intros H1 H2. apply Qle_bool_iff. apply Qle_bool_iff in H1, H2.
  eapply Qle_trans; eassumption.
Qed.

(** Between two boundaries, and for a phase that is a number, the bin is
    [lo <= x < hi]. *)
Lemma in_bin_between :
  forall edges j lo hi x,
    nth_error edges j = Some lo -> nth_error edges (S j) = Some hi ->
    x <> NaN -> hi <> NaN ->
    in_bin edges (S j) x = fle lo x && flt x hi.
Proof.
  intros edges j lo hi x Hlo Hhi Hx Hh. unfold in_bin. rewrite Hlo, Hhi.
  f_equal.
  - destruct lo, x; try reflexivity; congruence.
  - destruct hi as [h| | |], x as [q| | |]; try congruence; reflexivity.
Qed.

(** Above the last boundary the bin has no upper end. *)
Lemma in_bin_last :
  forall edges j lo x,
    nth_error edges j = Some lo -> length edges = S j -> x <> NaN ->
    in_bin edges (S j) x = fle lo x.
Proof.
  intros edges j lo x Hlo Hn Hx. unfold in_bin. rewrite Hlo.
  assert (Hnone : nth_error edges (S j) = None).
  { apply nth_error_None. lia. }
  rewrite Hnone, andb_true_r.
  destruct lo, x; try reflexivity; congruence.
Qed.




(** ** [np.unique]: the occupied bins in increasing order *)

Lemma insert_uniq_In :
  forall x l y, In y (insert_uniq x l) <-> y = x \/ In y l.
Proof.
  intros x l y. induction l as [|z l IH]; simpl.
  - intuition.
  - destruct (Z.ltb_spec x z).
    + simpl. intuition.
    + destruct (Z.eqb_spec x z).
      * subst z. simpl. intuition.
      * simpl. rewrite IH. intuition.
Qed.


Lemma npunique_In : forall a y, In y (npunique a) <-> In y a.
Proof.
  intros a y. induction a as [|x a IH]; simpl; [tauto|].
  change (fold_right insert_uniq [] a) with (npunique a).
  rewrite insert_uniq_In, IH. intuition.
Qed.






(** ** The loop over the occupied bins *)

Lemma zip_of_maps :
  forall {X U V} (u : X -> U) (v : X -> V) (xs : list X),
    map (fun x => (u x, v x)) xs = combine (map u xs) (map v xs).
Proof.
  intros X U V u v xs. induction xs as [|x xs IH]; [reflexivity|].
  cbn [map combine]. rewrite IH. reflexivity.
Qed.

Lemma combine_fst_snd :
  forall {A B} (l : list (A * B)), combine (map fst l) (map snd l) = l.
Proof.
  intros A B l. induction l as [|[a b] l IH]; simpl; [reflexivity|].
  rewrite IH. reflexivity.
Qed.

(** The magnitudes selected by the mask [binnedphaseinds == x]. *)
Lemma bin_mask_filter :
  forall bins (pairs : list (float * float)) x,
    mask_select
      (map (fun i => i =? x) (npdigitize (map fst pairs) bins))
      (map snd pairs) =
    map snd (filter (fun pm => digitize1 bins (fst pm) =? x) pairs).
Proof.
  intros bins pairs x. unfold npdigitize. rewrite !map_map.
  apply (mask_select_map (fun pm => digitize1 bins (fst pm) =? x) snd pairs).
Qed.

(** A bin number occurs among the indices exactly when its mask selects
    something. *)
Lemma occupied_iff_nonempty :
  forall bins (pairs : list (float * float)) x,
    existsb (Z.eqb x) (npdigitize (map fst pairs) bins) =
    negb (len (map snd (filter (fun pm => digitize1 bins (fst pm) =? x) pairs))
          =? 0).
Proof.
  intros bins pairs x. unfold npdigitize, len. rewrite length_map.
  induction pairs as [|[p m] pairs IH]; [reflexivity|].
  cbn [map existsb filter fst]. rewrite (Z.eqb_sym x).
  destruct (digitize1 bins p =? x); [|exact IH].
  cbn [length orb]. symmetry. apply negb_true_iff. apply Z.eqb_neq.
  clear IH. lia.
Qed.

Lemma fold_bin_step :
  forall bins (pairs : list (float * float)) minbin L vars ndets good,
    let inds := npdigitize (map fst pairs) bins in
    let sel := fun x =>
      map snd (filter (fun pm => digitize1 bins (fst pm) =? x) pairs) in
    let K := filter (fun g => negb (len g =? 0) && (len g >? minbin))
                    (map sel L) in
    fold_left (bin_step inds (map snd pairs) minbin)
              (filter (fun x => existsb (Z.eqb x) inds) L)
              (vars, ndets, good) =
    (vars ++ map (fun g => npvar g 1) K, ndets ++ map len K, good + len K).
Proof.
  intros bins pairs minbin L. induction L as [|x L IH];
    intros vars ndets good inds sel K.
  - subst K. simpl. unfold len. simpl. rewrite !app_nil_r, Z.add_0_r.
    reflexivity.
  - subst K. cbn [filter map]. subst inds.
    rewrite occupied_iff_nonempty. fold (sel x).
    destruct (negb (len (sel x) =? 0)) eqn:Hne.
    + cbn [fold_left andb]. unfold bin_step at 2.
      rewrite bin_mask_filter. fold (sel x).
      destruct (len (sel x) >? minbin).
      * rewrite IH. cbn [map]. rewrite <- !app_assoc. cbn [app].
        subst sel. cbn beta. f_equal. unfold len. cbn [length]. lia.
      * apply IH.
    + cbn [andb]. apply IH.
Qed.

(** ** The sort keeps the elements *)

Lemma insert_by_In :
  forall {A} (key : A -> float) x l y,
    In y (insert_by key x l) <-> y = x \/ In y l.
Proof.
  intros A key x l y. induction l as [|z l IH]; simpl; [intuition|].
  destruct (sort_le (key x) (key z)); simpl; [|rewrite IH]; intuition.
Qed.

Lemma sort_by_In :
  forall {A} (key : A -> float) l y, In y (sort_by key l) <-> In y l.
Proof.
  intros A key l y. induction l as [|x l IH]; [reflexivity|].
  change (sort_by key (x :: l)) with (insert_by key x (sort_by key l)).
  rewrite insert_by_In, IH. simpl. intuition.
Qed.

(** ** The bin boundaries *)








(** ** The theta statistic *)




(** On the sample folded at period 2 the phases are 0 and 1/2: of the five
    bins the four boundaries cut, the two that hold six magnitudes each are
    kept, and theta is 22/25. *)
Lemma theta_spec_sample_value :
  arange (Fin 0) (Fin 1) (Fin (1 # 4)) = Ok quarter_edges /\
  map len (kept_bins quarter_edges 2
             (let phased := phase_magseries sample_times sample_mags
                              (Fin 2) (Fin 0) in
              combine (phase phased) (pmags_of phased))) = [6; 6] /\
  theta_spec (phase_magseries sample_times sample_mags (Fin 2) (Fin 0))
             quarter_edges 2 = Fin (22 # 25) /\
  stellingwerf_pdm_theta sample_times sample_mags sample_errs
                         (Fin (1 # 2)) (Fin (1 # 4)) 2 = Ok (Fin (22 # 25)).
Proof. repeat split; vm_compute; reflexivity. Qed.

(** * Further properties of the search *)

(** ** Preprocessing *)

Lemma finite_samples_components :
  forall l : list sample,
    Forall (fun x => finite_sample x = true) l ->
    Forall (fun t => npisfinite t = true) (times_of l) /\
    Forall (fun m => npisfinite m = true) (mags_of l) /\
    Forall (fun e => npisfinite e = true) (errs_of l).
Proof.
  intros l H. unfold times_of, mags_of, errs_of.
  repeat split; apply Forall_map; (eapply Forall_impl; [|exact H]);
    intros [[t m] e] Hx; unfold finite_sample in Hx; cbn [fst snd] in *;
    apply andb_prop in Hx; destruct Hx as [Hx He];
    apply andb_prop in Hx; destruct Hx as [Ht Hm]; assumption.
Qed.

(** X1: when the finiteness filter of lines 201-204 returns, the three input
    arrays had the same length, the three output arrays have the same length,
    no more than the input, and every element they hold is finite. *)
Theorem finite_filter_result :
  forall times mags errs ftimes fmags ferrs,
    finite_filter times mags errs = Ok (ftimes, fmags, ferrs) ->
    length times = length mags /\ length mags = length errs /\
    length ftimes = length fmags /\ length fmags = length ferrs /\
    (length ftimes <= length times)%nat /\
    Forall (fun t => npisfinite t = true) ftimes /\
    Forall (fun m => npisfinite m = true) fmags /\
    Forall (fun e => npisfinite e = true) ferrs.
Proof.
  intros times mags errs ftimes fmags ferrs H.
  destruct (finite_filter_ok_lengths _ _ _ _ H) as [H1 H2].
  rewrite (finite_filter_samples times mags errs H1 H2) in H.
  inversion H; subst; clear H.
  set (F := finite_samples times mags errs).
  assert (HF : Forall (fun x => finite_sample x = true) F).
  { apply Forall_forall. intros x Hx. apply filter_In in Hx. tauto. }
  destruct (finite_samples_components F HF) as (Ht & Hm & He).
  unfold times_of, mags_of, errs_of in *. rewrite !length_map.
  repeat split; auto.
  unfold F, finite_samples.
  apply (Nat.le_trans _ (length (zip3 times mags errs)));
    [apply filter_length_le|].
  unfold zip3, sample. rewrite !length_combine. lia.
Qed.

Lemma finite_filter_result_witness :
  length gappy_times = length gappy_mags /\
  length gappy_mags = length gappy_errs /\
  length (map (fun i => of_Z (Z.of_nat i)) [0; 1; 2; 4; 6; 8; 9; 10; 11]%nat) =
  length (map (fun i => of_Z (Z.of_nat (i mod 4)))
              [0; 1; 2; 4; 6; 8; 9; 10; 11]%nat) /\
  length (map (fun i => of_Z (Z.of_nat (i mod 4)))
              [0; 1; 2; 4; 6; 8; 9; 10; 11]%nat) =
  length (repeat (Fin (1 # 100)) 9) /\
  (length (map (fun i => of_Z (Z.of_nat i)) [0; 1; 2; 4; 6; 8; 9; 10; 11]%nat)
   <= length gappy_times)%nat /\
  Forall (fun t => npisfinite t = true)
         (map (fun i => of_Z (Z.of_nat i)) [0; 1; 2; 4; 6; 8; 9; 10; 11]%nat) /\
  Forall (fun m => npisfinite m = true)
         (map (fun i => of_Z (Z.of_nat (i mod 4)))
              [0; 1; 2; 4; 6; 8; 9; 10; 11]%nat) /\
  Forall (fun e => npisfinite e = true) (repeat (Fin (1 # 100)) 9).
Proof.
  apply (finite_filter_result gappy_times gappy_mags gappy_errs).
  vm_compute. reflexivity.
Defined.

Lemma length_zip3 :
  forall times mags errs,
    length times = length mags -> length mags = length errs ->
    length (zip3 times mags errs) = length times.
Proof.
  intros times mags errs H1 H2. unfold zip3, sample.
  rewrite !length_combine. lia.
Qed.

Lemma zip3_components :
  forall l : list sample, zip3 (times_of l) (mags_of l) (errs_of l) = l.
Proof.
  induction l as [|[[t m] e] l IH]; [reflexivity|].
  unfold zip3, times_of, mags_of, errs_of in *.
  cbn [map combine fst snd]. rewrite IH. reflexivity.
Qed.

Lemma clipped_samples_incl :
  forall sigclip scale (l : list sample) x,
    In x (clipped_samples sigclip scale l) -> In x l.
Proof.
  intros [s|] scale l x; simpl; [|tauto].
  destruct (float_truthy s); [|tauto].
  intros H. apply filter_In in H. tauto.
Qed.

Lemma clipped_samples_length :
  forall sigclip scale (l : list sample),
    (length (clipped_samples sigclip scale l) <= length l)%nat.
Proof.
  intros [s|] scale l; simpl; [|lia].
  destruct (float_truthy s); [apply filter_length_le|lia].
Qed.

(** X2: the sigma-clip of lines 213-229 never adds a sample: its three output
    arrays have the same length, at most the length of the input, and every
    (time, magnitude, error) sample that goes on is one of the input
    samples. *)
Theorem sigclip_never_grows :
  forall sigclip ftimes fmags ferrs stimes smags serrs,
    length ftimes = length fmags -> length fmags = length ferrs ->
    sigclip_stage sigclip ftimes fmags ferrs = (stimes, smags, serrs) ->
    length stimes = length smags /\ length smags = length serrs /\
    (length stimes <= length ftimes)%nat /\
    forall x, In x (zip3 stimes smags serrs) -> In x (zip3 ftimes fmags ferrs).
Proof.
  intros sigclip ftimes fmags ferrs stimes smags serrs H1 H2 H.
  set (l := zip3 ftimes fmags ferrs).
  assert (E : sigclip_stage sigclip ftimes fmags ferrs =
              sigclip_stage sigclip (times_of l) (mags_of l) (errs_of l)).
  { unfold l. rewrite times_of_zip3, mags_of_zip3, errs_of_zip3 by assumption.
    reflexivity. }
  rewrite E, sigclip_stage_samples in H. clear E.
  set (C := clipped_samples sigclip (stddev_mag_of (mags_of l)) l) in H.
  inversion H; subst stimes smags serrs; clear H.
  split; [unfold times_of, mags_of; rewrite !length_map; reflexivity|].
  split; [unfold mags_of, errs_of; rewrite !length_map; reflexivity|].
  split.
  - unfold times_of. rewrite length_map.
    rewrite <- (length_zip3 ftimes fmags ferrs H1 H2). fold l.
    apply clipped_samples_length.
  - intros x Hx. rewrite zip3_components in Hx.
    exact (clipped_samples_incl _ _ _ _ Hx).
Qed.

Lemma sigclip_never_grows_witness :
  length (firstn 10 clip_times) = length (firstn 10 clip_mags) /\
  length (firstn 10 clip_mags) = length (firstn 10 clip_errs) /\
  (length (firstn 10 clip_times) <= length clip_times)%nat /\
  forall x,
    In x (zip3 (firstn 10 clip_times) (firstn 10 clip_mags)
               (firstn 10 clip_errs)) ->
    In x (zip3 clip_times clip_mags clip_errs).
Proof.
  apply (sigclip_never_grows (Some (Fin 5)) clip_times clip_mags clip_errs);
    reflexivity.
Defined.

Lemma nothing_below_zero_threshold :
  forall s y, flt (fabs y) (fmul s (Fin 0)) = false.
Proof.
  intros [a| | |] [b| | |]; try reflexivity.
  unfold fabs, fmul, fin, flt, Qltb. apply negb_false_iff.
  apply Qle_bool_iff. rewrite !Qred_correct, Qmult_0_r. apply Qabs_nonneg.
Qed.

Lemma zero_mad_clips_all :
  forall s (l : list sample),
    float_truthy s = true ->
    mad (mags_of l) = Fin 0 ->
    clipped_samples (Some s) (stddev_mag_of (mags_of l)) l = [].
Proof.
  intros s l Hs Hmad. unfold clipped_samples. rewrite Hs.
  rewrite stddev_mag_is_scaled_mad, Hmad.
  change (fmul (Fin 0) (Fin (1483 # 1000))) with (Fin 0).
  induction l as [|x l' IH]; [reflexivity|].
  cbn [filter]. unfold within_clip at 1.
  rewrite nothing_below_zero_threshold.
  clear IH.
  assert (H : forall k : list sample,
             filter (within_clip s (Fin 0) (mags_of (x :: l'))) k = []).
  { induction k as [|y k IHk]; [reflexivity|]. cbn [filter].
    unfold within_clip at 1. rewrite nothing_below_zero_threshold. exact IHk. }
  apply H.
Qed.

Section SearchBehaviour.

Variable get_frequency_grid : list float -> float -> float -> list float.
Variable npsqrt : float -> float.
Variable NCPUS : positive.

Local Abbreviation pdm := (stellingwerf_pdm get_frequency_grid npsqrt NCPUS).

(** X3: when the median absolute deviation of the finite magnitudes is zero
    (more than half of them equal the median) and a clip is configured, the
    threshold [sigclip * stddev_mag] is zero, no sample is strictly within
    it, and the search returns the record of nan and [None]. *)
Theorem zero_scale_clips_everything :
  forall times mags errs autofreq startp endp normalize stepsize phasebinsize
         mindetperbin nbestpeaks periodepsilon s nworkers,
    length times = length mags -> length mags = length errs ->
    float_truthy s = true ->
    mad (mags_of (finite_samples times mags errs)) = Fin 0 ->
    pdm times mags errs autofreq startp endp normalize stepsize phasebinsize
        mindetperbin nbestpeaks periodepsilon (Some s) nworkers =
    Ok (null_result nbestpeaks).
Proof.
  intros times mags errs autofreq startp endp normalize stepsize phasebinsize
         mindetperbin nbestpeaks periodepsilon s nworkers H1 H2 Hs Hmad.
  rewrite pdm_on_samples by assumption.
  rewrite (zero_mad_clips_all s _ Hs Hmad). cbn [length Nat.leb].
  rewrite andb_false_r. reflexivity.
Qed.

(** X4: a returned record tells a degenerate search from a completed one:
    [bestlspval] is finite exactly when the arrays are present, and is nan
    exactly when the four arrays are [None]. *)
Theorem finite_bestlspval_iff_arrays :
  forall times mags errs autofreq startp endp normalize stepsize phasebinsize
         mindetperbin nbestpeaks periodepsilon sigclip nworkers r,
    pdm times mags errs autofreq startp endp normalize stepsize phasebinsize
        mindetperbin nbestpeaks periodepsilon sigclip nworkers = Ok r ->
    (npisfinite (bestlspval r) = true /\
     exists lsp ps nbp nbv,
       lspvals r = Some lsp /\ periods r = Some ps /\
       nbestperiods r = Some nbp /\ nbestlspvals r = Some nbv) \/
    (bestlspval r = NaN /\ bestperiod r = NaN /\
     lspvals r = None /\ periods r = None /\
     nbestperiods r = None /\ nbestlspvals r = None).
Proof.
  intros times mags errs autofreq startp endp normalize stepsize phasebinsize
         mindetperbin nbestpeaks periodepsilon sigclip nworkers r Hr.
  assert (Hlen : length times = length mags /\ length mags = length errs).
  { unfold stellingwerf_pdm in Hr.
    destruct (finite_filter times mags errs) as [x|e] eqn:E; [|discriminate].
    exact (finite_filter_ok_lengths _ _ _ _ E). }
  destruct Hlen as [H1 H2]. rewrite pdm_on_samples in Hr by assumption.
  destruct (_ && _).
  - left.
    destruct (frequencies_of _ _ _ _ _ _) as [frequencies|e]; [|discriminate].
    cbn [bind] in Hr.
    destruct (pool_size NCPUS nworkers); [|discriminate]. cbn [bind] in Hr.
    assert (Hl : length (map (fun f => fdiv (Fin 1) f) frequencies) =
                 length (map stellingwerf_pdm_worker
                           (tasks_of
                              (times_of (clipped_samples sigclip
                                 (stddev_mag_of (mags_of (finite_samples times mags errs)))
                                 (finite_samples times mags errs)))
                              (nmags_of npsqrt normalize
                                 (mags_of (clipped_samples sigclip
                                    (stddev_mag_of (mags_of (finite_samples times mags errs)))
                                    (finite_samples times mags errs))))
                              (errs_of (clipped_samples sigclip
                                 (stddev_mag_of (mags_of (finite_samples times mags errs)))
                                 (finite_samples times mags errs)))
                              frequencies phasebinsize mindetperbin))).
    { unfold tasks_of. rewrite !length_map. reflexivity. }
    destruct (select_peaks_best _ _ _ _ _ Hl Hr) as (_ & Hfin & _).
    destruct (select_peaks_arrays _ _ _ _ _ Hr) as [Ha Hp].
    destruct (select_peaks_inv _ _ _ _ _ Hr)
      as (i & ext & extv & _ & _ & _ & Hnp & Hnv & _).
    split; [exact Hfin|]. eauto 10.
  - right. inversion Hr. repeat split.
Qed.

(** X5: a search that passes both guards, builds its grid and its pool, and
    gets no finite theta (every worker value is nan or infinite, or the grid
    is empty) raises ValueError. *)
Theorem no_finite_theta_raises :
  forall times mags errs autofreq startp endp normalize stepsize phasebinsize
         mindetperbin nbestpeaks periodepsilon sigclip nworkers frequencies n,
    length times = length mags -> length mags = length errs ->
    let F := finite_samples times mags errs in
    let C := clipped_samples sigclip (stddev_mag_of (mags_of F)) F in
    (10 <= length F)%nat -> (10 <= length C)%nat ->
    frequencies_of get_frequency_grid autofreq startp endp stepsize
                   (times_of C) = Ok frequencies ->
    pool_size NCPUS nworkers = Ok n ->
    (forall f, In f frequencies ->
       npisfinite (stellingwerf_pdm_worker
                     (times_of C, nmags_of npsqrt normalize (mags_of C),
                      errs_of C, f, phasebinsize, mindetperbin)) = false) ->
    pdm times mags errs autofreq startp endp normalize stepsize phasebinsize
        mindetperbin nbestpeaks periodepsilon sigclip nworkers =
    Raise ValueError.
Proof.
  intros times mags errs autofreq startp endp normalize stepsize phasebinsize
         mindetperbin nbestpeaks periodepsilon sigclip nworkers frequencies n
         H1 H2 F C HF HC Hfreq Hpool Hnan.
  rewrite pdm_on_samples by assumption. fold F. fold C.
  apply Nat.leb_le in HF. apply Nat.leb_le in HC. rewrite HF, HC.
  cbn [andb]. rewrite Hfreq. cbn [bind]. rewrite Hpool. cbn [bind].
  apply select_peaks_no_finite_raises.
  apply forallb_forall. intros x Hx. unfold tasks_of in Hx.
  rewrite map_map in Hx. apply in_map_iff in Hx.
  destruct Hx as (f & <- & Hf). rewrite (Hnan f Hf). reflexivity.
Qed.

End SearchBehaviour.

(** ** When the theta evaluation raises *)

Lemma arange_bad_step_raises :
  forall start stop step,
    feqb step (Fin 0) = true \/ step = NaN ->
    exists e, arange start stop step = Raise e.
Proof.
  intros start stop step [Hz| ->]; unfold arange.
  - rewrite Hz. eexists. reflexivity.
  - cbn [feqb]. cbv zeta. destruct (fsub stop start); eexists; reflexivity.
Qed.

(** X6: the theta evaluation raises when the series is empty ([times[0]]) and
    when the bin size is zero or nan ([np.arange]); the worker, which catches
    every exception, then gives nan for that frequency. *)
Theorem theta_raises_when :
  forall times mags errs frequency binsize minbin,
    times = [] \/ feqb binsize (Fin 0) = true \/ binsize = NaN ->
    (exists e, stellingwerf_pdm_theta times mags errs frequency binsize minbin
               = Raise e) /\
    stellingwerf_pdm_worker (times, mags, errs, frequency, binsize, minbin)
    = npnan.
Proof.
  intros times mags errs frequency binsize minbin H.
  assert (Hr : exists e, stellingwerf_pdm_theta times mags errs frequency
                           binsize minbin = Raise e).
  { unfold stellingwerf_pdm_theta. destruct H as [-> |H].
    - eexists. reflexivity.
    - destruct times as [|t0 times']; [eexists; reflexivity|].
      cbn [index0 bind].
      destruct (arange_bad_step_raises (Fin 0) (Fin 1) binsize H) as [e He].
      rewrite He. eexists. reflexivity. }
  split; [exact Hr|].
  destruct Hr as [e He]. unfold stellingwerf_pdm_worker. rewrite He.
  reflexivity.
Qed.

Lemma theta_raises_when_witness :
  (exists e, stellingwerf_pdm_theta sample_times sample_mags sample_errs
                                    (Fin (1 # 2)) (Fin 0) 2 = Raise e) /\
  stellingwerf_pdm_worker
    (sample_times, sample_mags, sample_errs, Fin (1 # 2), Fin 0, 2) = npnan.
Proof.
  apply (theta_raises_when sample_times sample_mags sample_errs
                           (Fin (1 # 2)) (Fin 0) 2).
  right. left. reflexivity.
Defined.

(** ** The sign of theta *)

Lemma Qzero_false_pos :
  forall b, (0 <= b)%Q -> Qzero b = false -> (0 < b)%Q.
Proof.
  intros b Hb Hz. apply Qle_lteq in Hb. destruct Hb as [Hb|Hb]; [exact Hb|].
  unfold Qzero in Hz. apply Qeq_bool_neq in Hz. exfalso. apply Hz.
  symmetry. exact Hb.
Qed.

Lemma not_negative_inf_signed :
  forall a, (0 <= a)%Q -> not_negative (inf_signed a).
Proof.
  intros a Ha. unfold inf_signed. destruct (Qzero a) eqn:Hz; [exact I|].
  assert (Hp : Qpos a = true).
  { unfold Qpos. apply negb_true_iff. destruct (Qle_bool a 0) eqn:E; [|reflexivity].
    apply Qle_bool_iff in E. exfalso.
    assert (H := Qzero_false_pos a Ha Hz). lra. }
  rewrite Hp. exact I.
Qed.

Lemma not_negative_fadd :
  forall x y, not_negative x -> not_negative y -> not_negative (fadd x y).
Proof.
  intros [a| | |] [b| | |]; cbn [fadd not_negative]; try tauto.
  intros Ha Hb. unfold fin. cbn [not_negative]. rewrite Qred_correct. lra.
Qed.

Lemma not_negative_fmul :
  forall x y, not_negative x -> not_negative y -> not_negative (fmul x y).
Proof.
  intros [a| | |] [b| | |]; cbn [fmul not_negative]; try tauto.
  - intros Ha Hb. unfold fin. cbn [not_negative]. rewrite Qred_correct.
    apply Qmult_le_0_compat; assumption.
  - intros Ha _. apply not_negative_inf_signed. exact Ha.
  - intros _ Hb. apply not_negative_inf_signed. exact Hb.
Qed.

Lemma not_negative_square : forall d, not_negative (fmul d d).
Proof.
  intros [a| | |]; cbn [fmul not_negative]; try exact I.
  unfold fin. cbn [not_negative]. rewrite Qred_correct.
  destruct (Qlt_le_dec a 0) as [H|H].
  - setoid_replace (a * a)%Q with ((- a) * (- a))%Q by ring.
    apply Qmult_le_0_compat; lra.
  - apply Qmult_le_0_compat; assumption.
Qed.

Lemma not_negative_fdiv :
  forall x y, not_negative x -> not_negative y -> not_negative (fdiv x y).
Proof.
  intros [a| | |] [b| | |]; cbn [fdiv not_negative]; try tauto.
  - intros Ha Hb. destruct (Qzero b) eqn:Hz.
    + apply not_negative_inf_signed. exact Ha.
    + unfold fin. cbn [not_negative]. rewrite Qred_correct.
      assert (Hp := Qzero_false_pos b Hb Hz).
      apply Qle_shift_div_l; [exact Hp|]. rewrite Qmult_0_l. exact Ha.
  - intros _ _. apply Qle_refl.
  - intros _ Hb. apply Qle_bool_iff in Hb. rewrite Hb. exact I.
Qed.

Lemma not_negative_fold :
  forall l acc,
    not_negative acc -> Forall not_negative l ->
    not_negative (fold_left fadd l acc).
Proof.
  induction l as [|x l IH]; intros acc Hacc Hl; [exact Hacc|].
  inversion Hl; subst. cbn [fold_left]. apply IH; [|assumption].
  apply not_negative_fadd; assumption.
Qed.

Lemma not_negative_npsum :
  forall l, Forall not_negative l -> not_negative (npsum l).
Proof.
  intros l Hl. apply not_negative_fold; [apply Qle_refl|exact Hl].
Qed.

Lemma not_negative_of_Z : forall z, 0 <= z -> not_negative (of_Z z).
Proof.
  intros z Hz. unfold of_Z. cbn [not_negative].
  change 0%Q with (inject_Z 0). rewrite <- Zle_Qle. exact Hz.
Qed.

(** [np.var] is a sum of squares over a count: never negative. *)
Lemma not_negative_npvar : forall a ddof, not_negative (npvar a ddof).
Proof.
  intros a ddof. unfold npvar. apply not_negative_fdiv.
  - apply not_negative_npsum. apply Forall_forall. intros x Hx.
    apply in_map_iff in Hx. destruct Hx as (d & <- & _).
    apply not_negative_square.
  - apply not_negative_of_Z. lia.
Qed.

Lemma fold_add_shift :
  forall l z, fold_left Z.add l z = z + fold_left Z.add l 0.
Proof.
  induction l as [|y l IH]; intros z; cbn [fold_left]; [lia|].
  rewrite (IH (z + y)), (IH (0 + y)). lia.
Qed.

Lemma sumZ_cons : forall x l, sumZ (x :: l) = x + sumZ l.
Proof.
  intros x l. unfold sumZ. cbn [fold_left]. rewrite fold_add_shift. lia.
Qed.

Lemma sumZ_minus_count :
  forall l : list Z, Forall (fun n => 1 <= n) l -> 0 <= sumZ l - len l.
Proof.
  induction l as [|x l IH]; intros H; [unfold sumZ, len; simpl; lia|].
  inversion H; subst. rewrite sumZ_cons. unfold len in *. cbn [length].
  specialize (IH H3). lia.
Qed.

Lemma filter_all :
  forall {A} (f : A -> bool) l,
    (forall x, In x l -> f x = true) -> filter f l = l.
Proof.
  intros A f l. induction l as [|x l IH]; intros H; [reflexivity|].
  cbn [filter]. rewrite (H x (or_introl eq_refl)). f_equal.
  apply IH. intros y Hy. apply H. right. exact Hy.
Qed.

(** The loop of lines 129-139 for any bin edges: in the order of the
    occupied bin numbers, the variance and size of the bins with more than
    [minbin] members. *)
Lemma theta_loop_any_bins :
  forall bins minbin (pairs : list (float * float)),
    let inds := npdigitize (map fst pairs) bins in
    exists K : list (list float),
      Forall (fun g => g <> []) K /\
      fold_left (bin_step inds (map snd pairs) minbin) (npunique inds)
                ([], [], 0) =
      (map (fun g => npvar g 1) K, map len K, len K).
Proof.
  intros bins minbin pairs inds.
  pose proof (fold_bin_step bins pairs minbin (npunique inds) [] [] 0) as H.
  cbv zeta in H. fold inds in H.
  rewrite (filter_all _ (npunique inds)) in H.
  2:{ intros x Hx. apply (proj1 (npunique_In _ _)) in Hx.
      apply existsb_exists.
      exists x. split; [exact Hx|apply Z.eqb_refl]. }
  eexists. split; [|rewrite H; cbn [app]; rewrite Z.add_0_l; reflexivity].
  apply Forall_forall. intros g Hg. apply filter_In in Hg.
  destruct Hg as [_ Hg]. apply andb_prop in Hg. destruct Hg as [Hg _].
  intros E. subst g. discriminate.
Qed.

Lemma not_negative_not_below_zero :
  forall x, not_negative x -> flt x (Fin 0) = false.
Proof.
  intros [a| | |]; cbn [not_negative flt]; try tauto.
  intros Ha. unfold Qltb. apply negb_false_iff. apply Qle_bool_iff. exact Ha.
Qed.

Lemma theta_not_negative :
  forall times mags errs frequency binsize minbin theta,
    stellingwerf_pdm_theta times mags errs frequency binsize minbin = Ok theta ->
    not_negative theta.
Proof.
  intros times mags errs frequency binsize minbin theta.
  unfold stellingwerf_pdm_theta.
  destruct (index0 times) as [fold_time|]; [|discriminate]. cbn [bind].
  destruct (arange (Fin 0) (Fin 1) binsize) as [bins|]; [|discriminate].
  cbn [bind].
  set (phased := phase_magseries times mags (fdiv (Fin 1) frequency) fold_time).
  assert (Hpairs : exists pairs, phase phased = map fst pairs /\
                                 pmags_of phased = map snd pairs).
  { unfold phased, phase_magseries. cbn [phase pmags_of]. eauto. }
  destruct Hpairs as (pairs & Hp & Hm). rewrite Hp, Hm.
  destruct (theta_loop_any_bins bins minbin pairs) as (K & HK & Hfold).
  rewrite Hfold. intros H. inversion H; subst theta; clear H.
  apply not_negative_fdiv; [|apply not_negative_npvar].
  apply not_negative_fdiv.
  - apply not_negative_npsum. apply Forall_forall. intros x Hx.
    apply in_map_iff in Hx. destruct Hx as ([v n] & <- & Hin).
    rewrite <- zip_of_maps in Hin. apply in_map_iff in Hin.
    destruct Hin as (g & Hg & HgK). inversion Hg; subst v n. cbn [fst snd].
    apply not_negative_fmul; [apply not_negative_npvar|].
    apply not_negative_of_Z. rewrite Forall_forall in HK.
    specialize (HK g HgK). destruct g; [congruence|].
    unfold len. cbn [length]. lia.
  - apply not_negative_of_Z.
    replace (len K) with (len (map (@len float) K))
      by (unfold len; rewrite length_map; reflexivity).
    apply sumZ_minus_count.
    apply Forall_forall. intros n Hn. apply in_map_iff in Hn.
    destruct Hn as (g & <- & HgK). rewrite Forall_forall in HK.
    specialize (HK g HgK). destruct g; [congruence|].
    unfold len. cbn [length]. lia.
Qed.

Lemma worker_not_below_zero :
  forall t : task, flt (stellingwerf_pdm_worker t) (Fin 0) = false.
Proof.
  intros [[[[[times mags] errs] frequency] binsize] minbin].
  rewrite worker_unfold.
  destruct (stellingwerf_pdm_theta times mags errs frequency binsize minbin)
    as [theta|e] eqn:E; [|reflexivity].
  apply not_negative_not_below_zero. exact (theta_not_negative _ _ _ _ _ _ _ E).
Qed.

(** X7: the theta evaluation never returns a value below zero, whatever the
    input: theta is a ratio of sums of squared deviations over counts, so it
    is a rational [>= 0], plus infinity or nan; the worker's value (nan when
    the evaluation raises) is never below zero either. *)
Theorem theta_never_negative :
  forall times mags errs frequency binsize minbin,
    match stellingwerf_pdm_theta times mags errs frequency binsize minbin with
    | Ok theta => not_negative theta
    | Raise _ => True
    end /\
    flt (stellingwerf_pdm_worker
           (times, mags, errs, frequency, binsize, minbin)) (Fin 0) = false.
Proof.
  intros times mags errs frequency binsize minbin. split.
  - destruct (stellingwerf_pdm_theta _ _ _ _ _ _) as [theta|e] eqn:E;
      [|exact I].
    exact (theta_not_negative _ _ _ _ _ _ _ E).
  - apply worker_not_below_zero.
Qed.

(** ** The order of the sort *)

Lemma insert_by_sorted :
  forall {A} (key : A -> float) x l,
    StronglySorted (fun a b => sort_le (key a) (key b) = true) l ->
    StronglySorted (fun a b => sort_le (key a) (key b) = true)
                   (insert_by key x l).
Proof.
  intros A key x l. induction l as [|y l IH]; intros Hs; cbn [insert_by].
  - constructor; constructor.
  - destruct (sort_le (key x) (key y)) eqn:E.
    + constructor; [exact Hs|]. constructor; [exact E|].
      apply StronglySorted_inv in Hs. destruct Hs as [_ Hy].
      eapply Forall_impl; [|exact Hy]. intros z Hz. cbn beta in *.
      eapply sort_le_trans; eassumption.
    + apply StronglySorted_inv in Hs. destruct Hs as [Hs Hy].
      assert (Hyx := sort_le_total _ _ E).
      constructor; [apply IH; exact Hs|].
      apply Forall_forall. intros z Hz. apply insert_by_In in Hz.
      destruct Hz as [->|Hz]; [exact Hyx|].
      rewrite Forall_forall in Hy. apply Hy. exact Hz.
Qed.

Lemma sort_by_sorted :
  forall {A} (key : A -> float) l,
    StronglySorted (fun a b => sort_le (key a) (key b) = true) (sort_by key l).
Proof.
  intros A key l. induction l as [|x l IH]; [constructor|].
  change (sort_by key (x :: l)) with (insert_by key x (sort_by key l)).
  apply insert_by_sorted. exact IH.
Qed.

Lemma mask_select_In :
  forall {A} mask (l : list A) x, In x (mask_select mask l) -> In x l.
Proof.
  intros A mask. induction mask as [|b mask IH]; intros [|y l] x H;
    cbn [mask_select] in H; try contradiction.
  destruct b.
  - destruct H as [->|H]; [left; reflexivity|right; apply IH; exact H].
  - right. apply IH. exact H.
Qed.

Lemma mask_select_sorted :
  forall {A} (R : A -> A -> Prop) mask (l : list A),
    StronglySorted R l -> StronglySorted R (mask_select mask l).
Proof.
  intros A R mask. induction mask as [|b mask IH]; intros [|y l] Hs;
    cbn [mask_select]; try constructor.
  apply StronglySorted_inv in Hs. destruct Hs as [Hs Hy].
  destruct b; [|apply IH; exact Hs].
  constructor; [apply IH; exact Hs|].
  apply Forall_forall. intros z Hz. apply mask_select_In in Hz.
  rewrite Forall_forall in Hy. apply Hy. exact Hz.
Qed.

Lemma mask_select_map_comm :
  forall {A B} (h : A -> B) mask (l : list A),
    mask_select mask (map h l) = map h (mask_select mask l).
Proof.
  intros A B h mask. induction mask as [|b mask IH]; intros [|y l];
    cbn [mask_select map]; try reflexivity.
  destruct b; cbn [map]; rewrite IH; reflexivity.
Qed.

(** The walk keeps a subsequence of its candidates: the accepted periods and
    theta values are the components of the candidates picked by a mask. *)
Lemma peak_loop_selects :
  forall nb e l nbp nbv pc prev,
    exists mask prev',
      peak_loop nb e l (nbp, nbv, pc, prev) =
      (nbp ++ map fst (mask_select mask l),
       nbv ++ map snd (mask_select mask l),
       pc + len (mask_select mask l), prev').
Proof.
  intros nb e l. induction l as [|[period lspval] l IH];
    intros nbp nbv pc prev.
  - exists [], prev. cbn. rewrite !app_nil_r, Z.add_0_r. reflexivity.
  - cbn [peak_loop]. destruct (pc =? nb).
    + exists [], prev. cbn. rewrite !app_nil_r, Z.add_0_r. reflexivity.
    + destruct (fgt _ e && forallb _ _).
      * destruct (IH (nbp ++ [period]) (nbv ++ [lspval]) (pc + 1) period)
          as (mask & prev' & Heq).
        exists (true :: mask), prev'. rewrite Heq. cbn [mask_select map fst snd].
        rewrite <- !app_assoc. cbn [app]. unfold len. cbn [length].
        f_equal. f_equal. lia.
      * destruct (IH nbp nbv pc period) as (mask & prev' & Heq).
        exists (false :: mask), prev'. rewrite Heq. reflexivity.
Qed.

Lemma in_combine_seq :
  forall {A} (a : list A) s i v,
    In (i, v) (combine (seq s (length a)) a) ->
    (s <= i)%nat /\ nth_error a (i - s) = Some v.
Proof.
  intros A a. induction a as [|x a IH]; intros s i v H; [contradiction|].
  cbn [length seq combine] in H. destruct H as [H|H].
  - inversion H; subst. rewrite Nat.sub_diag. split; [lia|reflexivity].
  - destruct (IH (S s) i v H) as [Hle Hn]. split; [lia|].
    replace (i - s)%nat with (S (i - S s)) by lia. exact Hn.
Qed.

Lemma strongly_sorted_map :
  forall {A B} (R : B -> B -> Prop) (f : A -> B) l,
    StronglySorted (fun a b => R (f a) (f b)) l -> StronglySorted R (map f l).
Proof.
  intros A B R f l. induction l as [|x l IH]; intros Hs; [constructor|].
  apply StronglySorted_inv in Hs. destruct Hs as [Hs Hx]. cbn [map].
  constructor; [apply IH; exact Hs|]. apply Forall_map. exact Hx.
Qed.

Lemma sorted_finite_fle :
  forall l,
    Forall (fun v => npisfinite v = true) l ->
    StronglySorted (fun a b => sort_le a b = true) l ->
    StronglySorted (fun a b => fle a b = true) l.
Proof.
  induction l as [|x l IH]; intros Hf Hs; [constructor|].
  apply StronglySorted_inv in Hs. destruct Hs as [Hs Hx].
  inversion Hf as [|? ? Hfx Hfl]; subst.
  constructor; [apply IH; assumption|].
  rewrite Forall_forall in *. intros y Hy.
  specialize (Hx y Hy). specialize (Hfl y Hy).
  destruct x; try discriminate. destruct y; try discriminate. exact Hx.
Qed.

(** The reported peaks beyond the first are candidates of the spectrum with a
    finite theta, in non-decreasing theta order. *)
Lemma select_peaks_structure :
  forall lsp ps nb e r,
    length ps = length lsp ->
    select_peaks lsp ps nb e = Ok r ->
    exists S : list (float * float),
      nbestperiods r = Some (bestperiod r :: map fst S) /\
      nbestlspvals r = Some (bestlspval r :: map snd S) /\
      (forall pv, In pv S ->
                  In pv (combine ps lsp) /\ npisfinite (snd pv) = true) /\
      StronglySorted (fun a b => fle a b = true) (map snd S).
Proof.
  intros lsp ps nb e r Hlen. unfold select_peaks. rewrite mask_select_self.
  set (Z := combine ps lsp).
  set (keep := fun pv : float * float => npisfinite (snd pv)).
  set (FZ := filter keep Z).
  assert (Hlsp : filter npisfinite lsp = map snd FZ).
  { rewrite <- mask_select_self.
    rewrite <- (proj2 (unzip_combine ps lsp Hlen)) at 1 2. fold Z.
    rewrite map_map. apply (mask_select_map keep snd Z). }
  assert (Hps : mask_select (map npisfinite lsp) ps = map fst FZ).
  { rewrite <- (proj2 (unzip_combine ps lsp Hlen)) at 1.
    rewrite <- (proj1 (unzip_combine ps lsp Hlen)) at 2. fold Z.
    rewrite map_map. apply (mask_select_map keep fst Z). }
  rewrite Hlsp, Hps.
  destruct (npargmin (map snd FZ)) as [i|]; [|discriminate]. cbn [bind].
  set (SP := sort_by snd (combine (seq 0 (length (map snd FZ))) (map snd FZ))).
  assert (Hargsort : npargsort (map snd FZ) = map fst SP) by reflexivity.
  rewrite Hargsort.
  assert (HSP : forall iv, In iv SP ->
            nth_error FZ (fst iv) =
            Some (nth (fst iv) (map fst FZ) NaN, snd iv) /\
            nth (fst iv) (map snd FZ) NaN = snd iv).
  { intros [k v] Hin. apply sort_by_In in Hin. apply in_combine_seq in Hin.
    destruct Hin as [_ Hn]. rewrite Nat.sub_0_r in Hn. cbn [fst snd].
    rewrite nth_error_map in Hn.
    destruct (nth_error FZ k) as [[p w]|] eqn:Ek; [|discriminate].
    cbn in Hn. inversion Hn; subst w. split.
    - f_equal. f_equal. symmetry. apply nth_error_nth with (d := NaN).
      rewrite nth_error_map, Ek. reflexivity.
    - apply nth_error_nth with (d := NaN).
      rewrite nth_error_map, Ek. reflexivity. }
  set (h := fun iv : nat * float => (nth (fst iv) (map fst FZ) NaN, snd iv)).
  assert (Hsv : take_inds (map snd FZ) (map fst SP) = map snd (map h SP)).
  { unfold take_inds. rewrite !map_map. apply map_ext_in.
    intros iv Hin. cbn [h snd]. exact (proj2 (HSP iv Hin)). }
  assert (Hsp : take_inds (map fst FZ) (map fst SP) = map fst (map h SP)).
  { unfold take_inds. rewrite !map_map. reflexivity. }
  rewrite Hsv, Hsp, combine_fst_snd.
  destruct (index0 (map snd (map h SP))) as [v0|]; [|discriminate].
  cbn [bind].
  destruct (index0 (map fst (map h SP))) as [prev|]; [|discriminate].
  cbn [bind].
  destruct (peak_loop_selects nb e (map h SP)
              [nth i (map fst FZ) NaN] [nth i (map snd FZ) NaN] 1 prev)
    as (mask & prev' & Heq).
  rewrite Heq. intros H. inversion H; subst r; clear H. cbn.
  exists (mask_select mask (map h SP)).
  split; [reflexivity|]. split; [reflexivity|]. split.
  - intros pv Hpv. apply mask_select_In in Hpv. apply in_map_iff in Hpv.
    destruct Hpv as (iv & <- & Hin). destruct (HSP iv Hin) as [Hn _].
    apply nth_error_In in Hn. fold (h iv) in Hn.
    apply filter_In in Hn. exact Hn.
  - rewrite mask_select_map_comm, map_map.
    change (fun x : nat * float => snd (h x)) with (@snd nat float).
    apply sorted_finite_fle.
    + apply Forall_forall. intros v Hv. apply in_map_iff in Hv.
      destruct Hv as (iv & <- & Hin). apply mask_select_In in Hin.
      destruct (HSP iv Hin) as [Hn _]. apply nth_error_In in Hn.
      apply filter_In in Hn. exact (proj2 Hn).
    + apply strongly_sorted_map. apply mask_select_sorted.
      apply sort_by_sorted.
Qed.

Lemma strongly_sorted_nth :
  forall {A} (R : A -> A -> Prop) l i j a b,
    StronglySorted R l -> (i < j)%nat ->
    nth_error l i = Some a -> nth_error l j = Some b -> R a b.
Proof.
  intros A R l. induction l as [|x l IH]; intros i j a b Hs Hij Hi Hj.
  - destruct i; discriminate.
  - apply StronglySorted_inv in Hs. destruct Hs as [Hs Hx].
    destruct j as [|j]; [lia|]. cbn [nth_error] in Hj.
    destruct i as [|i].
    + cbn in Hi. inversion Hi; subst a.
      rewrite Forall_forall in Hx. apply Hx. exact (nth_error_In _ _ Hj).
    + cbn [nth_error] in Hi. apply (IH i j); auto. lia.
Qed.

Lemma not_below_zero_finite :
  forall v, npisfinite v = true -> flt v (Fin 0) = false ->
            fle (Fin 0) v = true.
Proof.
  intros [a| | |] Hf; try discriminate. cbn [flt fle]. unfold Qltb.
  intros H. apply negb_false_iff in H. exact H.
Qed.

Section PeakOrder.

Variable get_frequency_grid : list float -> float -> float -> list float.
Variable npsqrt : float -> float.
Variable NCPUS : positive.

Local Abbreviation pdm := (stellingwerf_pdm get_frequency_grid npsqrt NCPUS).

(** X8: in a search that returns its peaks, [nbestperiods] and
    [nbestlspvals] have the same length, they start with [bestperiod] and
    [bestlspval], and each reported (period, theta) pair is a point of the
    returned spectrum whose theta is finite. *)
Theorem reported_peaks_are_spectrum_points :
  forall times mags errs autofreq startp endp normalize stepsize phasebinsize
         mindetperbin nbestpeaks periodepsilon sigclip nworkers
         r nbp nbv lsp ps,
    pdm times mags errs autofreq startp endp normalize stepsize phasebinsize
        mindetperbin nbestpeaks periodepsilon sigclip nworkers = Ok r ->
    nbestperiods r = Some nbp -> nbestlspvals r = Some nbv ->
    lspvals r = Some lsp -> periods r = Some ps ->
    length nbp = length nbv /\
    nth_error nbp 0 = Some (bestperiod r) /\
    nth_error nbv 0 = Some (bestlspval r) /\
    forall k p v,
      nth_error nbp k = Some p -> nth_error nbv k = Some v ->
      In (p, v) (combine ps lsp) /\ npisfinite v = true.
Proof.
  intros times mags errs autofreq startp endp normalize stepsize phasebinsize
         mindetperbin nbestpeaks periodepsilon sigclip nworkers
         r nbp nbv lsp ps Hr Hnbp Hnbv Hlsp Hps.
  destruct (pdm_success_peaks get_frequency_grid npsqrt NCPUS
              _ _ _ _ _ _ _ _ _ _ _ _ _ _ _ _ _ Hr Hlsp Hps) as [Hlen Hsel].
  destruct (select_peaks_best _ _ _ _ _ Hlen Hsel) as (Hin & Hfin & _).
  destruct (select_peaks_structure _ _ _ _ _ Hlen Hsel)
    as (S & Hp & Hv & HS & _).
  rewrite Hnbp in Hp. rewrite Hnbv in Hv.
  inversion Hp; subst nbp. inversion Hv; subst nbv.
  cbn [length]. rewrite !length_map.
  split; [reflexivity|]. split; [reflexivity|]. split; [reflexivity|].
  intros [|k] p v Hk1 Hk2; cbn [nth_error] in Hk1, Hk2.
  - inversion Hk1; subst p. inversion Hk2; subst v. auto.
  - rewrite nth_error_map in Hk1, Hk2.
    destruct (nth_error S k) as [[p' v']|] eqn:E; [|discriminate].
    cbn in Hk1, Hk2. inversion Hk1; subst p'. inversion Hk2; subst v'.
    exact (HS _ (nth_error_In _ _ E)).
Qed.

(** X9: the reported theta values run from best to worst: [nbestlspvals] is
    in non-decreasing order. *)
Theorem reported_peaks_best_to_worst :
  forall times mags errs autofreq startp endp normalize stepsize phasebinsize
         mindetperbin nbestpeaks periodepsilon sigclip nworkers
         r nbv lsp ps,
    pdm times mags errs autofreq startp endp normalize stepsize phasebinsize
        mindetperbin nbestpeaks periodepsilon sigclip nworkers = Ok r ->
    nbestlspvals r = Some nbv ->
    lspvals r = Some lsp -> periods r = Some ps ->
    forall i j vi vj,
      (i < j)%nat -> nth_error nbv i = Some vi -> nth_error nbv j = Some vj ->
      fle vi vj = true.
Proof.
  intros times mags errs autofreq startp endp normalize stepsize phasebinsize
         mindetperbin nbestpeaks periodepsilon sigclip nworkers
         r nbv lsp ps Hr Hnbv Hlsp Hps.
  destruct (pdm_success_peaks get_frequency_grid npsqrt NCPUS
              _ _ _ _ _ _ _ _ _ _ _ _ _ _ _ _ _ Hr Hlsp Hps) as [Hlen Hsel].
  destruct (select_peaks_best _ _ _ _ _ Hlen Hsel) as (_ & _ & Hmin).
  destruct (select_peaks_structure _ _ _ _ _ Hlen Hsel)
    as (S & _ & Hv & HS & Hsorted).
  rewrite Hnbv in Hv. inversion Hv; subst nbv.
  assert (Hall : StronglySorted (fun a b => fle a b = true)
                                (bestlspval r :: map snd S)).
  { constructor; [exact Hsorted|]. apply Forall_forall. intros v Hin.
    apply in_map_iff in Hin. destruct Hin as ([p w] & <- & Hpw).
    destruct (HS _ Hpw) as [Hc Hf]. apply Hmin; [|exact Hf].
    exact (in_combine_r _ _ _ _ Hc). }
  intros i j vi vj Hij Hi Hj.
  exact (strongly_sorted_nth _ _ i j vi vj Hall Hij Hi Hj).
Qed.

(** X10: no entry of the returned spectrum is below zero, and the best theta
    is a finite value [>= 0]. *)
Theorem spectrum_never_negative :
  forall times mags errs autofreq startp endp normalize stepsize phasebinsize
         mindetperbin nbestpeaks periodepsilon sigclip nworkers r lsp ps,
    pdm times mags errs autofreq startp endp normalize stepsize phasebinsize
        mindetperbin nbestpeaks periodepsilon sigclip nworkers = Ok r ->
    lspvals r = Some lsp -> periods r = Some ps ->
    (forall v, In v lsp -> flt v (Fin 0) = false) /\
    npisfinite (bestlspval r) = true /\
    fle (Fin 0) (bestlspval r) = true.
Proof.
  intros times mags errs autofreq startp endp normalize stepsize phasebinsize
         mindetperbin nbestpeaks periodepsilon sigclip nworkers r lsp ps
         Hr Hlsp Hps.
  destruct (pdm_success_peaks get_frequency_grid npsqrt NCPUS
              _ _ _ _ _ _ _ _ _ _ _ _ _ _ _ _ _ Hr Hlsp Hps) as [Hlen Hsel].
  assert (Hneg : forall v, In v lsp -> flt v (Fin 0) = false).
  { destruct (pdm_success get_frequency_grid npsqrt NCPUS
                _ _ _ _ _ _ _ _ _ _ _ _ _ _ _ Hr)
      as (_ & _ & frequencies & _ & Hsel').
    { congruence. }
    destruct (select_peaks_arrays _ _ _ _ _ Hsel') as [Hl _].
    rewrite Hlsp in Hl. inversion Hl; subst lsp.
    intros v Hv. apply in_map_iff in Hv. destruct Hv as (t & <- & _).
    apply worker_not_below_zero. }
  destruct (select_peaks_best _ _ _ _ _ Hlen Hsel) as (Hin & Hfin & _).
  split; [exact Hneg|]. split; [exact Hfin|].
  apply not_below_zero_finite; [exact Hfin|].
  apply Hneg. exact (in_combine_r _ _ _ _ Hin).
Qed.

(** X11: with [nbestpeaks = 1] the walk stops at once and the only reported
    peak is the best period with its theta. *)
Theorem single_peak_is_best :
  forall times mags errs autofreq startp endp normalize stepsize phasebinsize
         mindetperbin periodepsilon sigclip nworkers r lsp ps,
    stellingwerf_pdm get_frequency_grid npsqrt NCPUS
        times mags errs autofreq startp endp normalize stepsize phasebinsize
        mindetperbin 1 periodepsilon sigclip nworkers = Ok r ->
    lspvals r = Some lsp -> periods r = Some ps ->
    nbestperiods r = Some [bestperiod r] /\
    nbestlspvals r = Some [bestlspval r].
Proof.
  intros times mags errs autofreq startp endp normalize stepsize phasebinsize
         mindetperbin periodepsilon sigclip nworkers r lsp ps Hr Hlsp Hps.
  destruct (pdm_success_peaks get_frequency_grid npsqrt NCPUS
              _ _ _ _ _ _ _ _ _ _ _ _ _ _ _ _ _ Hr Hlsp Hps) as [_ Hsel].
  destruct (select_peaks_inv _ _ _ _ _ Hsel)
    as (i & ext & extv & _ & Hbp & Hbv & Hnp & Hnv & Hlv & _ & _ & _ & Hpc).
  assert (Hext : ext = []).
  { specialize (Hpc ltac:(lia)). unfold len in Hpc.
    destruct ext; [reflexivity|]. cbn [length] in Hpc. lia. }
  subst ext. destruct extv; [|discriminate].
  rewrite Hnp, Hnv, Hbp, Hbv. split; reflexivity.
Qed.

(** X12: when both guards pass, a zero [stepsize] with an explicit grid, or a
    negative [nworkers], makes the search raise: it never returns a
    record. *)
Theorem bad_configuration_raises :
  forall times mags errs autofreq startp endp normalize stepsize phasebinsize
         mindetperbin nbestpeaks periodepsilon sigclip nworkers,
    length times = length mags -> length mags = length errs ->
    let F := finite_samples times mags errs in
    let C := clipped_samples sigclip (stddev_mag_of (mags_of F)) F in
    (10 <= length F)%nat -> (10 <= length C)%nat ->
    (autofreq = false /\ feqb stepsize (Fin 0) = true) \/
    (exists k, nworkers = Some k /\ k < 0) ->
    exists e,
      pdm times mags errs autofreq startp endp normalize stepsize phasebinsize
          mindetperbin nbestpeaks periodepsilon sigclip nworkers = Raise e.
Proof.
  intros times mags errs autofreq startp endp normalize stepsize phasebinsize
         mindetperbin nbestpeaks periodepsilon sigclip nworkers
         H1 H2 F C HF HC Hbad.
  rewrite pdm_on_samples by assumption. fold F. fold C.
  apply Nat.leb_le in HF. apply Nat.leb_le in HC. rewrite HF, HC.
  cbn [andb]. destruct Hbad as [[Ha Hs]|(k & Hk & Hneg)].
  - subst autofreq. unfold frequencies_of. cbn [negb].
    destruct (startf_of endp (times_of C)) as [startf|e];
      [|eexists; reflexivity].
    cbn [bind]. unfold arange. rewrite Hs. eexists. reflexivity.
  - destruct (frequencies_of _ _ _ _ _ _) as [fs|e]; [|eexists; reflexivity].
    cbn [bind]. subst nworkers. unfold pool_size.
    assert (E1 : (k =? 0) = false) by (apply Z.eqb_neq; lia).
    assert (E2 : (k >? Z.pos NCPUS) = false).
    { destruct (Z.gtb_spec k (Z.pos NCPUS)); [lia|reflexivity]. }
    rewrite E1, E2. cbn [orb].
    assert (E3 : (k <? 1) = true) by (apply Z.ltb_lt; lia).
    rewrite E3. eexists. reflexivity.
Qed.

End PeakOrder.


(** ** A bin threshold no bin can reach *)

Lemma filter_none :
  forall {A} (f : A -> bool) l,
    (forall x, In x l -> f x = false) -> filter f l = [].
Proof.
  intros A f l. induction l as [|x l IH]; intros H; [reflexivity|].
  cbn [filter]. rewrite (H x (or_introl eq_refl)).
  apply IH. intros y Hy. apply H. right. exact Hy.
Qed.

Lemma theta_loop_large_minbin :
  forall bins minbin (pairs : list (float * float)),
    len pairs <= minbin ->
    let inds := npdigitize (map fst pairs) bins in
    fold_left (bin_step inds (map snd pairs) minbin) (npunique inds)
              ([], [], 0) = ([], [], 0).
Proof.
  intros bins minbin pairs Hle inds.
  pose proof (fold_bin_step bins pairs minbin (npunique inds) [] [] 0) as H.
  cbv zeta in H. fold inds in H.
  rewrite (filter_all _ (npunique inds)) in H.
  2:{ intros x Hx. apply (proj1 (npunique_In _ _)) in Hx.
      apply existsb_exists.
      exists x. split; [exact Hx|apply Z.eqb_refl]. }
  rewrite H. rewrite filter_none; [reflexivity|].
  intros g Hg. apply in_map_iff in Hg. destruct Hg as (x & <- & _).
  apply andb_false_iff. right.
  assert (Hlen : len (map snd (filter (fun pm : float * float =>
                                         digitize1 bins (fst pm) =? x) pairs))
                 <= len pairs).
  { unfold len. rewrite length_map. apply inj_le. apply filter_length_le. }
  destruct (Z.gtb_spec (len (map snd (filter (fun pm : float * float =>
                                         digitize1 bins (fst pm) =? x) pairs)))
                       minbin); [lia|reflexivity].
Qed.

Lemma worker_nan_large_minbin :
  forall times mags errs frequency binsize minbin,
    len times <= minbin ->
    stellingwerf_pdm_worker (times, mags, errs, frequency, binsize, minbin)
    = NaN.
Proof.
  intros times mags errs frequency binsize minbin Hle.
  rewrite worker_unfold. unfold stellingwerf_pdm_theta.
  destruct (index0 times) as [fold_time|]; [|reflexivity]. cbn [bind].
  destruct (arange (Fin 0) (Fin 1) binsize) as [bins|]; [|reflexivity].
  cbn [bind].
  set (phased := phase_magseries times mags (fdiv (Fin 1) frequency) fold_time).
  assert (Hpairs : exists pairs, phase phased = map fst pairs /\
                                 pmags_of phased = map snd pairs /\
                                 len pairs <= len times).
  { unfold phased, phase_magseries. cbn [phase pmags_of]. eexists.
    split; [reflexivity|]. split; [reflexivity|].
    unfold len. rewrite length_sort_by, length_combine, length_map.
    apply inj_le. apply Nat.le_min_l. }
  destruct Hpairs as (pairs & Hp & Hm & Hl). rewrite Hp, Hm.
  rewrite (theta_loop_large_minbin bins minbin pairs); [|lia].
  reflexivity.
Qed.

Section LargeThreshold.

Variable get_frequency_grid : list float -> float -> float -> list float.
Variable npsqrt : float -> float.
Variable NCPUS : positive.

Local Abbreviation pdm := (stellingwerf_pdm get_frequency_grid npsqrt NCPUS).

(** X13: when [mindetperbin] is at least the number of samples that reach the
    workers, no phase bin can hold more than [mindetperbin] members: every
    worker value is nan, and a search that passes both guards and builds its
    grid and pool raises ValueError instead of returning a record. *)
Theorem unreachable_mindetperbin_raises :
  forall times mags errs autofreq startp endp normalize stepsize phasebinsize
         mindetperbin nbestpeaks periodepsilon sigclip nworkers frequencies n,
    length times = length mags -> length mags = length errs ->
    let F := finite_samples times mags errs in
    let C := clipped_samples sigclip (stddev_mag_of (mags_of F)) F in
    (10 <= length F)%nat -> (10 <= length C)%nat ->
    len C <= mindetperbin ->
    frequencies_of get_frequency_grid autofreq startp endp stepsize
                   (times_of C) = Ok frequencies ->
    pool_size NCPUS nworkers = Ok n ->
    (forall f, stellingwerf_pdm_worker
                 (times_of C, nmags_of npsqrt normalize (mags_of C),
                  errs_of C, f, phasebinsize, mindetperbin) = NaN) /\
    pdm times mags errs autofreq startp endp normalize stepsize phasebinsize
        mindetperbin nbestpeaks periodepsilon sigclip nworkers =
    Raise ValueError.
Proof.
  intros times mags errs autofreq startp endp normalize stepsize phasebinsize
         mindetperbin nbestpeaks periodepsilon sigclip nworkers frequencies n
         H1 H2 F C HF HC Hmin Hfreq Hpool.
  assert (Hnan : forall f, stellingwerf_pdm_worker
                   (times_of C, nmags_of npsqrt normalize (mags_of C),
                    errs_of C, f, phasebinsize, mindetperbin) = NaN).
  { intros f. apply worker_nan_large_minbin.
    unfold len, times_of in *. rewrite length_map. exact Hmin. }
  split; [exact Hnan|].
  rewrite pdm_on_samples by assumption. fold F. fold C.
  apply Nat.leb_le in HF. apply Nat.leb_le in HC. rewrite HF, HC.
  cbn [andb]. rewrite Hfreq. cbn [bind]. rewrite Hpool. cbn [bind].
  apply select_peaks_no_finite_raises.
  apply forallb_forall. intros x Hx. unfold tasks_of in Hx.
  rewrite map_map in Hx. apply in_map_iff in Hx.
  destruct Hx as (f & <- & Hf). rewrite (Hnan f). reflexivity.
Qed.

End LargeThreshold.

(** ** The measurement errors in the search *)

Lemma finite_samples_without_errs :
  forall times mags errs1 errs2,
    map npisfinite errs1 = map npisfinite errs2 ->
    map fst (finite_samples times mags errs1) =
    map fst (finite_samples times mags errs2).
Proof.
  intros times mags errs1 errs2. unfold finite_samples, zip3.
  generalize (combine times mags) as tm. intros tm. revert errs1 errs2.
  induction tm as [|x tm IH]; intros [|e1 errs1] [|e2 errs2] H;
    try discriminate; try reflexivity.
  cbn [map] in H. inversion H as [[He Hrest]].
  assert (E : finite_sample (x, e1) = finite_sample (x, e2)).
  { unfold finite_sample. cbn [fst snd]. rewrite He. reflexivity. }
  cbn [combine filter]. rewrite E.
  destruct (finite_sample (x, e2)); cbn [map fst]; [f_equal|];
    apply IH; exact Hrest.
Qed.

Lemma filter_on_fst :
  forall {A B} (g : A -> bool) (l : list (A * B)),
    map fst (filter (fun x => g (fst x)) l) = filter g (map fst l).
Proof.
  intros A B g l. induction l as [|x l IH]; [reflexivity|].
  cbn [filter map]. destruct (g (fst x)); cbn [map]; rewrite IH; reflexivity.
Qed.

Lemma times_mags_of_fst :
  forall l : list sample,
    times_of l = map fst (map fst l) /\ mags_of l = map snd (map fst l).
Proof.
  intros l. unfold times_of, mags_of. rewrite !map_map. split; reflexivity.
Qed.

Lemma clipped_samples_without_errs :
  forall sigclip (l1 l2 : list sample),
    map fst l1 = map fst l2 ->
    map fst (clipped_samples sigclip (stddev_mag_of (mags_of l1)) l1) =
    map fst (clipped_samples sigclip (stddev_mag_of (mags_of l2)) l2).
Proof.
  intros sigclip l1 l2 H.
  assert (Hm : mags_of l1 = mags_of l2).
  { rewrite (proj2 (times_mags_of_fst l1)), (proj2 (times_mags_of_fst l2)), H.
    reflexivity. }
  destruct sigclip as [s|]; cbn [clipped_samples]; [|exact H].
  destruct (float_truthy s); [|exact H]. rewrite Hm.
  set (g := fun tm : float * float =>
              flt (fabs (fsub (snd tm) (npmedian (mags_of l2))))
                  (fmul s (stddev_mag_of (mags_of l2)))).
  change (within_clip s (stddev_mag_of (mags_of l2)) (mags_of l2))
    with (fun x : float * float * float => g (fst x)).
  unfold sample in *.
  rewrite (filter_on_fst g l1), (filter_on_fst g l2), H. reflexivity.
Qed.

Section ErrorsInSearch.

Variable get_frequency_grid : list float -> float -> float -> list float.
Variable npsqrt : float -> float.
Variable NCPUS : positive.

Local Abbreviation pdm := (stellingwerf_pdm get_frequency_grid npsqrt NCPUS).

(** X14: the measurement errors reach the result only through the
    finiteness filter: two error arrays that are finite at the same positions
    give the same outcome (the same record, or the same exception). *)
Theorem errs_matter_only_through_finiteness :
  forall times mags errs1 errs2 autofreq startp endp normalize stepsize
         phasebinsize mindetperbin nbestpeaks periodepsilon sigclip nworkers,
    length times = length mags -> length mags = length errs1 ->
    map npisfinite errs1 = map npisfinite errs2 ->
    pdm times mags errs1 autofreq startp endp normalize stepsize phasebinsize
        mindetperbin nbestpeaks periodepsilon sigclip nworkers =
    pdm times mags errs2 autofreq startp endp normalize stepsize phasebinsize
        mindetperbin nbestpeaks periodepsilon sigclip nworkers.
Proof.
  intros times mags errs1 errs2 autofreq startp endp normalize stepsize
         phasebinsize mindetperbin nbestpeaks periodepsilon sigclip nworkers
         H1 H2 Hfin.
  assert (H2' : length mags = length errs2).
  { rewrite H2. rewrite <- (length_map npisfinite errs1), Hfin.
    apply length_map. }
  rewrite !pdm_on_samples by assumption. cbv zeta.
  set (F1 := finite_samples times mags errs1).
  set (F2 := finite_samples times mags errs2).
  set (C1 := clipped_samples sigclip (stddev_mag_of (mags_of F1)) F1).
  set (C2 := clipped_samples sigclip (stddev_mag_of (mags_of F2)) F2).
  assert (HF : map fst F1 = map fst F2)
    by (apply finite_samples_without_errs; exact Hfin).
  assert (HC : map fst C1 = map fst C2)
    by (apply clipped_samples_without_errs; exact HF).
  assert (HlF : length F1 = length F2).
  { assert (E := f_equal (@length _) HF). rewrite !length_map in E. exact E. }
  assert (HlC : length C1 = length C2).
  { assert (E := f_equal (@length _) HC). rewrite !length_map in E. exact E. }
  assert (Ht : times_of C1 = times_of C2).
  { rewrite (proj1 (times_mags_of_fst C1)), (proj1 (times_mags_of_fst C2)), HC.
    reflexivity. }
  assert (Hm : mags_of C1 = mags_of C2).
  { rewrite (proj2 (times_mags_of_fst C1)), (proj2 (times_mags_of_fst C2)), HC.
    reflexivity. }
  rewrite HlF, HlC, Ht, Hm.
  destruct (_ && _); [|reflexivity].
  destruct (frequencies_of _ _ _ _ _ _) as [frequencies|e]; [|reflexivity].
  cbn [bind]. destruct (pool_size NCPUS nworkers); [|reflexivity].
  cbn [bind]. f_equal. unfold tasks_of. rewrite !map_map.
  apply map_ext. intros f. reflexivity.
Qed.

End ErrorsInSearch.

(** ** The further properties on the sample inputs *)

Lemma zero_scale_clips_everything_witness :
  stellingwerf_pdm grid_unused sqrt_unused 4%positive
    flat_times flat_mags flat_errs true None None false
    (Fin (1 # 10000)) (Fin (1 # 20)) 9 5 (Fin (1 # 10)) (Some (Fin 10)) None
  = Ok (null_result 5).
Proof.
  apply (zero_scale_clips_everything grid_unused sqrt_unused 4%positive
           flat_times flat_mags flat_errs true None None false
           (Fin (1 # 10000)) (Fin (1 # 20)) 9 5 (Fin (1 # 10)) (Fin 10) None);
    reflexivity.
Defined.

Lemma finite_bestlspval_iff_arrays_witness :
  (npisfinite (bestlspval sample_result) = true /\
   exists lsp ps nbp nbv,
     lspvals sample_result = Some lsp /\ periods sample_result = Some ps /\
     nbestperiods sample_result = Some nbp /\
     nbestlspvals sample_result = Some nbv) \/
  (bestlspval sample_result = NaN /\ bestperiod sample_result = NaN /\
   lspvals sample_result = None /\ periods sample_result = None /\
   nbestperiods sample_result = None /\ nbestlspvals sample_result = None).
Proof.
  apply (finite_bestlspval_iff_arrays grid_unused sqrt_unused 4%positive
           sample_times sample_mags sample_errs
           false (Some (Fin (8 # 5))) (Some (Fin 4)) false
           (Fin (1 # 4)) (Fin (1 # 4)) 2 5 (Fin (1 # 10)) None None
           sample_result).
  vm_compute. reflexivity.
Defined.

Lemma no_finite_theta_raises_witness :
  sample_search (Some (Fin 4)) 100 (Fin (1 # 10)) = Raise ValueError.
Proof.
  apply (no_finite_theta_raises grid_unused sqrt_unused 4%positive
           sample_times sample_mags sample_errs
           false (Some (Fin (8 # 5))) (Some (Fin 4)) false
           (Fin (1 # 4)) (Fin (1 # 4)) 100 5 (Fin (1 # 10)) None None
           [Fin (1 # 4); Fin (1 # 2)] 4).
  - reflexivity.
  - reflexivity.
  - vm_compute. lia.
  - vm_compute. lia.
  - vm_compute. reflexivity.
  - reflexivity.
  - intros f [<-|[<-|[]]]; vm_compute; reflexivity.
Defined.

Lemma reported_peaks_are_spectrum_points_witness :
  length [Fin 4; Fin 2] = length [Fin 0; Fin (22 # 25)] /\
  nth_error [Fin 4; Fin 2] 0 = Some (bestperiod sample_result) /\
  nth_error [Fin 0; Fin (22 # 25)] 0 = Some (bestlspval sample_result) /\
  forall k p v,
    nth_error [Fin 4; Fin 2] k = Some p ->
    nth_error [Fin 0; Fin (22 # 25)] k = Some v ->
    In (p, v) (combine [Fin 4; Fin 2] [Fin 0; Fin (22 # 25)]) /\
    npisfinite v = true.
Proof.
  apply (reported_peaks_are_spectrum_points grid_unused sqrt_unused 4%positive
           sample_times sample_mags sample_errs
           false (Some (Fin (8 # 5))) (Some (Fin 4)) false
           (Fin (1 # 4)) (Fin (1 # 4)) 2 5 (Fin (1 # 10)) None None
           sample_result [Fin 4; Fin 2] [Fin 0; Fin (22 # 25)]
           [Fin 0; Fin (22 # 25)] [Fin 4; Fin 2]);
    reflexivity.
Defined.

Lemma reported_peaks_best_to_worst_witness :
  fle (Fin 0) (Fin (22 # 25)) = true.
Proof.
  apply (reported_peaks_best_to_worst grid_unused sqrt_unused 4%positive
           sample_times sample_mags sample_errs
           false (Some (Fin (8 # 5))) (Some (Fin 4)) false
           (Fin (1 # 4)) (Fin (1 # 4)) 2 5 (Fin (1 # 10)) None None
           sample_result [Fin 0; Fin (22 # 25)]
           [Fin 0; Fin (22 # 25)] [Fin 4; Fin 2])
    with (i := 0%nat) (j := 1%nat); try reflexivity.
  lia.
Defined.

Lemma spectrum_never_negative_witness :
  (forall v, In v [Fin 0; Fin (22 # 25)] -> flt v (Fin 0) = false) /\
  npisfinite (bestlspval sample_result) = true /\
  fle (Fin 0) (bestlspval sample_result) = true.
Proof.
  apply (spectrum_never_negative grid_unused sqrt_unused 4%positive
           sample_times sample_mags sample_errs
           false (Some (Fin (8 # 5))) (Some (Fin 4)) false
           (Fin (1 # 4)) (Fin (1 # 4)) 2 5 (Fin (1 # 10)) None None
           sample_result [Fin 0; Fin (22 # 25)] [Fin 4; Fin 2]);
    reflexivity.
Defined.

Lemma single_peak_is_best_witness :
  nbestperiods sample_result_single = Some [bestperiod sample_result_single] /\
  nbestlspvals sample_result_single = Some [bestlspval sample_result_single].
Proof.
  apply (single_peak_is_best grid_unused sqrt_unused 4%positive
           sample_times sample_mags sample_errs
           false (Some (Fin (8 # 5))) (Some (Fin 4)) false
           (Fin (1 # 4)) (Fin (1 # 4)) 2 (Fin (1 # 10)) None None
           sample_result_single [Fin 0; Fin (22 # 25)] [Fin 4; Fin 2]);
    reflexivity.
Defined.

Lemma bad_configuration_raises_witness :
  exists e,
    stellingwerf_pdm grid_unused sqrt_unused 4%positive
      sample_times sample_mags sample_errs
      false (Some (Fin (8 # 5))) (Some (Fin 4)) false
      (Fin 0) (Fin (1 # 4)) 2 5 (Fin (1 # 10)) None (Some (-1)) = Raise e.
Proof.
  apply (bad_configuration_raises grid_unused sqrt_unused 4%positive
           sample_times sample_mags sample_errs
           false (Some (Fin (8 # 5))) (Some (Fin 4)) false
           (Fin 0) (Fin (1 # 4)) 2 5 (Fin (1 # 10)) None (Some (-1))).
  - reflexivity.
  - reflexivity.
  - vm_compute. lia.
  - vm_compute. lia.
  - left. split; reflexivity.
Defined.

Lemma unreachable_mindetperbin_raises_witness :
  (forall f, stellingwerf_pdm_worker
               (sample_times, sample_mags, sample_errs, f, Fin (1 # 4), 100)
             = NaN) /\
  sample_search (Some (Fin 4)) 100 (Fin (1 # 10)) = Raise ValueError.
Proof.
  apply (unreachable_mindetperbin_raises grid_unused sqrt_unused 4%positive
           sample_times sample_mags sample_errs
           false (Some (Fin (8 # 5))) (Some (Fin 4)) false
           (Fin (1 # 4)) (Fin (1 # 4)) 100 5 (Fin (1 # 10)) None None
           [Fin (1 # 4); Fin (1 # 2)] 4).
  - reflexivity.
  - reflexivity.
  - vm_compute. lia.
  - vm_compute. lia.
  - vm_compute. discriminate.
  - vm_compute. reflexivity.
  - reflexivity.
Defined.

Lemma errs_matter_only_through_finiteness_witness :
  sample_search (Some (Fin 4)) 2 (Fin (1 # 10)) =
  stellingwerf_pdm grid_unused sqrt_unused 4%positive
    sample_times sample_mags sample_errs_other
    false (Some (Fin (8 # 5))) (Some (Fin 4)) false
    (Fin (1 # 4)) (Fin (1 # 4)) 2 5 (Fin (1 # 10)) None None.
Proof.
  apply (errs_matter_only_through_finiteness grid_unused sqrt_unused 4%positive
           sample_times sample_mags sample_errs sample_errs_other
           false (Some (Fin (8 # 5))) (Some (Fin 4)) false
           (Fin (1 # 4)) (Fin (1 # 4)) 2 5 (Fin (1 # 10)) None None);
    reflexivity.
Defined.

(** ** The record for any configuration *)

Section AnyConfiguration.

Variable get_frequency_grid : list float -> float -> float -> list float.
Variable npsqrt : float -> float.
Variable NCPUS : positive.

Local Abbreviation pdm := (stellingwerf_pdm get_frequency_grid npsqrt NCPUS).

(** X15: whatever [nbestpeaks] (zero and negative values included) and
    [periodepsilon] are, a search that returns its peaks reports at least one
    period, the best one, and at most one more than there are finite theta
    values. *)
Theorem reported_count_any_configuration :
  forall times mags errs autofreq startp endp normalize stepsize phasebinsize
         mindetperbin nbestpeaks periodepsilon sigclip nworkers r nbp lsp ps,
    pdm times mags errs autofreq startp endp normalize stepsize phasebinsize
        mindetperbin nbestpeaks periodepsilon sigclip nworkers = Ok r ->
    nbestperiods r = Some nbp ->
    lspvals r = Some lsp -> periods r = Some ps ->
    1 <= len nbp <= 1 + len (filter npisfinite lsp) /\
    nth_error nbp 0 = Some (bestperiod r).
Proof.
  intros times mags errs autofreq startp endp normalize stepsize phasebinsize
         mindetperbin nbestpeaks periodepsilon sigclip nworkers r nbp lsp ps
         Hr Hnbp Hlsp Hps.
  destruct (pdm_success_peaks get_frequency_grid npsqrt NCPUS
              _ _ _ _ _ _ _ _ _ _ _ _ _ _ _ _ _ Hr Hlsp Hps) as [_ Hsel].
  destruct (select_peaks_inv _ _ _ _ _ Hsel)
    as (i & ext & extv & _ & Hbp & _ & Hn & _ & _ & Hle & _).
  rewrite Hnbp in Hn. inversion Hn; subst nbp.
  rewrite Hbp. unfold len in *. cbn [length nth_error].
  split; [lia|reflexivity].
Qed.

End AnyConfiguration.

(** With [nbestpeaks=0] and a negative [periodepsilon] the walk never stops
    and accepts every candidate: three periods for two finite values. *)
Lemma reported_count_any_configuration_witness :
  1 <= len [Fin 4; Fin 4; Fin 2]
    <= 1 + len (filter npisfinite [Fin 0; Fin (22 # 25)]) /\
  nth_error [Fin 4; Fin 4; Fin 2] 0 = Some (Fin 4).
Proof.
  apply (reported_count_any_configuration grid_unused sqrt_unused 4%positive
           sample_times sample_mags sample_errs
           false (Some (Fin (8 # 5))) (Some (Fin 4)) false
           (Fin (1 # 4)) (Fin (1 # 4)) 2 0 (Fin (-1)) None None
           {| bestperiod := Fin 4; bestlspval := Fin 0; nbestpeaks := 0;
              nbestlspvals := Some [Fin 0; Fin 0; Fin (22 # 25)];
              nbestperiods := Some [Fin 4; Fin 4; Fin 2];
              lspvals := Some [Fin 0; Fin (22 # 25)];
              periods := Some [Fin 4; Fin 2];
              method := "pdm" |}
           [Fin 4; Fin 4; Fin 2] [Fin 0; Fin (22 # 25)] [Fin 4; Fin 2]);
    reflexivity.
Defined.
